(** * Emacspeak speech server for NVDA: protocol parser and dispatcher

    A shallow embedding of [emacspeak.py] (class [Emacspeaker]) and the
    properties of its command tokenizer, its dispatch table and the
    state / header / queue triple the handlers act on.

    Python text is a sequence of Unicode code points, the TTS state is a
    dictionary, the header and the queue are lists of speech items, and the
    host's speech framework is an interface whose calls are recorded in a
    log.  Python exceptions are results: every handler returns the world it
    leaves behind together with either a value or the exception raised. *)

From Stdlib Require Import ZArith NArith Lia.
From stdpp Require Import base list strings gmap.

Open Scope Z_scope.

(** ** Python [str] *)

Module Str.

(** A [str] is a sequence of code points. *)
Definition pystr : Type := list N.

(** A literal of the source, character by character. *)
Definition py (s : string) : pystr :=
  map Ascii.N_of_ascii (String.list_ascii_of_string s).

(** [str.isspace] on one code point: the characters CPython's
    [Py_UNICODE_ISSPACE] accepts, which are the ones [str.strip()]
    removes. *)
Definition isspace (c : N) : bool :=
  ((9 <=? c) && (c <=? 13) || (28 <=? c) && (c <=? 32)
   || (c =? 133) || (c =? 160) || (c =? 5760)
   || (8192 <=? c) && (c <=? 8202)
   || (c =? 8232) || (c =? 8233) || (c =? 8239) || (c =? 8287)
   || (c =? 12288))%N.

Fixpoint lstrip (s : pystr) : pystr :=
  match s with
  | c :: s' => if isspace c then lstrip s' else s
  | [] => []
  end.

Definition rstrip (s : pystr) : pystr := rev (lstrip (rev s)).

(** [s.strip()] *)
Definition strip (s : pystr) : pystr := rstrip (lstrip s).

(** [s.split(sep)] for a separator of one character: every occurrence
    of [sep] ends a token, so adjacent separators give empty tokens and
    the empty string gives one empty token. *)
Fixpoint split (sep : N) (s : pystr) : list pystr :=
  match s with
  | [] => [[]]
  | c :: s' =>
      if (c =? sep)%N then [] :: split sep s'
      else match split sep s' with
           | w :: ws => (c :: w) :: ws
           | [] => [[c]]
           end
  end.

(** [sep.join(l)] *)
Fixpoint join (sep : pystr) (l : list pystr) : pystr :=
  match l with
  | [] => []
  | [w] => w
  | w :: ws => w ++ sep ++ join sep ws
  end.

(** [s.startswith(p)] and [s.endswith(p)] *)
Definition startswith (p s : pystr) : bool :=
  bool_decide (take (length p) s = p).

Definition endswith (p s : pystr) : bool :=
  bool_decide (drop (length s - length p) s = p).

Definition space : N := 32%N.
Definition lbrace : N := 123%N.
Definition rbrace : N := 125%N.

End Str.

Import Str.

(** ** Exceptions *)

Inductive exn : Type :=
| ValueError   (* int() or float() on a malformed literal *)
| TypeError    (* a call with the wrong number of arguments *)
| IndexError.  (* a list index out of range *)

Inductive result (A : Type) : Type :=
| Ok (a : A)
| Raise (e : exn).

Arguments Ok {A} a.
Arguments Raise {A} e.

(** [l[i]] for [0 <= i], and [l[-1]]. *)
Definition getitem {A} (l : list A) (i : nat) : result A :=
  match l !! i with
  | Some x => Ok x
  | None => Raise IndexError
  end.

Definition last_index {A} (l : list A) : nat := (length l - 1)%nat.

Definition getitem_last {A} (l : list A) : result A :=
  match l with
  | [] => Raise IndexError
  | _ => getitem l (last_index l)
  end.

Definition rbind {A B} (r : result A) (k : A -> result B) : result B :=
  match r with
  | Ok a => k a
  | Raise e => Raise e
  end.

(** ** The tokenizer: the first half of [parseCommand] *)

(** [t = cmd.strip().split(" ")], then the padding and the two brace
    assignments, in the order of the source.  The result is the list [t]
    as it stands when the dispatch table is consulted. *)
Definition tokenize (cmd : pystr) : result (list pystr) :=
  let t := split space (strip cmd) in
  let t := if decide (length t < 2)%nat then t ++ [[]] else t in
  rbind (getitem t 1) (fun t1 =>
  let t := if startswith [lbrace] t1 then <[1%nat := drop 1 t1]> t else t in
  rbind (getitem_last t) (fun tl =>
  let t := if endswith [rbrace] tl
           then <[last_index t := take (length tl - 1) tl]> t else t in
  Ok t)).

(** The tokenizer as the protocol describes it: the line is trimmed and
    split at every space, a lone command name gets one empty argument,
    and of the arguments the first loses one opening brace and the last
    loses one closing brace. *)
Definition strip_lbrace (a : pystr) : pystr :=
  match a with
  | c :: a' => if (c =? lbrace)%N then a' else a
  | [] => []
  end.

Definition strip_rbrace (a : pystr) : pystr :=
  match rev a with
  | c :: a' => if (c =? rbrace)%N then rev a' else a
  | [] => []
  end.

Definition on_first {A} (f : A -> A) (l : list A) : list A :=
  match l with
  | x :: l' => f x :: l'
  | [] => []
  end.

Fixpoint on_last {A} (f : A -> A) (l : list A) : list A :=
  match l with
  | [] => []
  | [x] => [f x]
  | x :: l' => x :: on_last f l'
  end.

Definition padded (cmd : pystr) : list pystr :=
  let ts := split space (strip cmd) in
  if (length ts <? 2)%nat then ts ++ [[]] else ts.

Definition tokens_of_line (cmd : pystr) : list pystr :=
  match padded cmd with
  | name :: args => name :: on_last strip_rbrace (on_first strip_lbrace args)
  | [] => []
  end.

(** ** Speech items and the host's speech framework *)

(** A value held in the TTS state dictionary. *)
Inductive pyval (F : Type) : Type :=
| VInt (z : Z)
| VFloat (f : F).

Arguments VInt {F} z.
Arguments VFloat {F} f.

(** The items of a speech sequence: text, and the command objects the
    source builds.  [RateCommand] is built in two ways, with a positional
    offset and with [multiplier=]. *)
Inductive SpeechItem (F : Type) : Type :=
| Text (s : pystr)
| EndUtteranceCommand
| BeepCommand (arg0 : F) (arg1 : Z)
| RateCommand_offset (offset : pyval F)
| RateCommand_multiplier (multiplier : pyval F)
| OtherCommand (name : pystr).

Arguments Text {F} s.
Arguments EndUtteranceCommand {F}.
Arguments BeepCommand {F} arg0 arg1.
Arguments RateCommand_offset {F} offset.
Arguments RateCommand_multiplier {F} multiplier.
Arguments OtherCommand {F} name.

Inductive SpeechPriority : Type := NORMAL | NEXT | NOW.

(** What the modules [speech] and [versionInfo] and the builtins [int]
    and [float] provide. *)
Class Host : Type := {
  pyfloat : Type;
  py_float : pystr -> result pyfloat;
  py_int : pystr -> result Z;
  (** [speech.RateCommand().newValue] *)
  defaultRate : Z;
  (** [list(speech.getSpellingSpeech(text))] *)
  getSpellingSpeech : pystr -> list (SpeechItem pyfloat);
  (** [versionInfo.version] *)
  host_version : pystr
}.

Module Emacspeaker.

Section Server.

Context `{H : Host}.

Definition item : Type := SpeechItem pyfloat.

(** The calls made to the speech framework, oldest first. *)
Inductive BackendCall : Type :=
| speak (speechSequence : list item) (priority : SpeechPriority)
| cancelSpeech
| pauseSpeech (switch : bool).

(** The fields of an [Emacspeaker] besides the dispatch table, and the
    log of calls to the speech framework. *)
Record World : Type := mkWorld {
  _state : gmap pystr (pyval pyfloat);
  _header : list item;
  _queue : list item;
  backend : list BackendCall
}.

Definition set_state (f : gmap pystr (pyval pyfloat) -> gmap pystr (pyval pyfloat))
    (w : World) : World :=
  mkWorld (f (_state w)) (_header w) (_queue w) (backend w).
Definition set_header (f : list item -> list item) (w : World) : World :=
  mkWorld (_state w) (f (_header w)) (_queue w) (backend w).
Definition set_queue (f : list item -> list item) (w : World) : World :=
  mkWorld (_state w) (_header w) (f (_queue w)) (backend w).
Definition log (c : BackendCall) (w : World) : World :=
  mkWorld (_state w) (_header w) (_queue w) (backend w ++ [c]).

(** The state of [__init__]. *)
Definition init : World := mkWorld ∅ [] [] [].

(** *** Computations that read and write the world and may raise *)

Definition M (A : Type) : Type := World -> result A * World.

#[export] Instance M_ret : MRet M := fun A a w => (Ok a, w).
#[export] Instance M_bind : MBind M := fun A B k m w =>
  match m w with
  | (Ok a, w') => k a w'
  | (Raise e, w') => (Raise e, w')
  end.

Definition raise {A} (e : exn) : M A := fun w => (Raise e, w).
Definition lift {A} (r : result A) : M A := fun w => (r, w).
Definition gets {A} (f : World -> A) : M A := fun w => (Ok (f w), w).
Definition modify (f : World -> World) : M unit := fun w => (Ok tt, f w).

(** The world a computation leaves, whether it returned or raised. *)
Definition exec {A} (m : M A) (w : World) : World := snd (m w).
Definition outcome {A} (m : M A) (w : World) : result A := fst (m w).

(** *** The handlers *)

(** [_buildHeader]: the header is emptied, then receives one
    [RateCommand] when the state has a rate offset. *)
Definition _buildHeader : M unit :=
  modify (set_header (fun _ => []));;
  st ← gets _state;
  match st !! py "rate_offset" with
  | Some v => modify (set_header (fun h => h ++ [RateCommand_offset v]))
  | None => mret tt
  end.

(** The value of [functools.partial(speech.speak, priority=NOW)]: the
    argument list itself is the speech sequence. *)
Definition tts_saytext (args : list pystr) : M unit :=
  modify (log (speak (map Text args) NOW)).

Definition q (args : list pystr) : M unit :=
  let text := join [space] args in
  modify (set_queue (fun qu => qu ++ [Text text; EndUtteranceCommand])).

Definition d (args : list pystr) : M unit :=
  hd ← gets _header;
  qu ← gets _queue;
  let res := ([] ++ hd) ++ qu in
  modify (log (speak res NOW));;
  modify (set_queue (fun _ => [])).

Definition l (args : list pystr) : M unit :=
  hd ← gets _header;
  st ← gets _state;
  let res := [] ++ hd in
  let res := match st !! py "character_scale" with
             | Some v => res ++ [RateCommand_multiplier v]
             | None => res
             end in
  let res := res ++ getSpellingSpeech (join [] args) in
  modify (log cancelSpeech);;
  modify (log (speak res NOW)).

Definition pause (args : list pystr) : M unit :=
  modify (log (pauseSpeech true)).

Definition resume (args : list pystr) : M unit :=
  modify (log (pauseSpeech false)).

Definition s (args : list pystr) : M unit :=
  modify (log cancelSpeech);;
  modify (set_queue (fun _ => [])).

Definition t (args : list pystr) : M unit :=
  if decide (length args ≠ 2%nat) then mret tt
  else
    a0 ← lift (getitem args 0);
    f ← lift (py_float a0);
    a1 ← lift (getitem args 1);
    n ← lift (py_int a1);
    modify (set_queue (fun qu => qu ++ [BeepCommand f n])).

Definition setRate (args : list pystr) : M unit :=
  a0 ← lift (getitem args 0);
  value ← lift (py_int a0);
  modify (set_state (insert (py "rate_offset") (VInt (value - defaultRate))));;
  _buildHeader.

Definition setCharacterScale (args : list pystr) : M unit :=
  a0 ← lift (getitem args 0);
  f ← lift (py_float a0);
  modify (set_state (insert (py "character_scale") (VFloat f))).

(** [res = self._header] binds [res] to the header list itself, so the
    [append] is an append to the header. *)
Definition version (args : list pystr) : M unit :=
  modify (set_header (fun hd => hd ++ [Text (py "NVDA " ++ host_version)]));;
  res ← gets _header;
  modify (log (speak res NOW)).

(** [reset] is declared with [self] alone. *)
Definition reset : M unit :=
  modify (set_state (fun _ => ∅));;
  _buildHeader.

(** *** The dispatch table and [parseCommand] *)

(** A bound method, by the number of arguments it accepts. *)
Inductive callable : Type :=
| Unary (f : list pystr -> M unit)
| Nullary (f : M unit).

(** [c(args)]: a call with one positional argument. *)
Definition call (c : callable) (args : list pystr) : M unit :=
  match c with
  | Unary f => f args
  | Nullary _ => raise TypeError
  end.

Definition _cmdMap_items : list (pystr * callable) :=
  [ (py "tts_saytext", Unary tts_saytext);
    (py "q", Unary q);
    (py "d", Unary d);
    (py "l", Unary l);
    (py "tts_pause", Unary pause);
    (py "tts_resume", Unary resume);
    (py "s", Unary s);
    (py "t", Unary t);
    (py "tts_set_speech_rate", Unary setRate);
    (py "tts_set_character_scale", Unary setCharacterScale);
    (py "version", Unary version);
    (py "tts_reset", Nullary reset) ].

Definition _cmdMap : gmap pystr callable := list_to_map _cmdMap_items.

(** The second half of [parseCommand]: [t[0]] looked up in the table
    and the handler called on [t[1:]]. *)
Definition dispatch (tk : list pystr) : M unit :=
  t0 ← lift (getitem tk 0);
  match _cmdMap !! t0 with
  | Some handler => call handler (drop 1 tk)
  | None => mret tt
  end.

Definition parseCommand (cmd : pystr) : M unit :=
  tk ← lift (tokenize cmd);
  dispatch tk.

(** The lines the server receives, in the order it handles them.  A
    handler that raises ends the connection it was called for; the server
    and its fields stay, and later lines act on them. *)
Definition serve (lines : list pystr) (w : World) : World :=
  fold_left (fun w cmd => exec (parseCommand cmd) w) lines w.

(** *** Derived notions used by the properties *)

(** The command name [parseCommand] looks up for a line. *)
Definition command_name (cmd : pystr) : pystr :=
  match tokenize cmd with
  | Ok (name :: _) => name
  | _ => []
  end.

(** The keys of the dispatch table. *)
Definition command_names : list pystr := map fst _cmdMap_items.

(** The header [_buildHeader] computes for a state. *)
Definition header_of (st : gmap pystr (pyval pyfloat)) : list item :=
  match st !! py "rate_offset" with
  | Some v => [RateCommand_offset v]
  | None => []
  end.

Definition is_rate_offset (i : item) : bool :=
  match i with
  | RateCommand_offset _ => true
  | _ => false
  end.

(** The header carries the rate offset [off] once, and the state holds
    it. *)
Definition rate_kept (off : pyval pyfloat) (w : World) : Prop :=
  _state w !! py "rate_offset" = Some off
  /\ List.filter is_rate_offset (_header w) = [RateCommand_offset off].

(** The header agrees with the state. *)
Definition header_rebuilt (w : World) : Prop :=
  _header w = header_of (_state w).

(** [TCPHandler.handle]: the lines of one connection, already decoded,
    each stripped and parsed in turn.  An exception leaves the loop, so
    the lines after it are not read. *)
Fixpoint handle (rfile : list pystr) : M unit :=
  match rfile with
  | [] => mret tt
  | line :: rest => parseCommand (strip line);; handle rest
  end.

(** A line as Emacspeak writes it: the command name, a space, and the
    argument text in braces. *)
Definition braced (name text : pystr) : pystr :=
  name ++ [space; lbrace] ++ text ++ [rbrace].

(** The entries the handlers write into the state: an integer under
    [rate_offset], a float under [character_scale]. *)
Definition state_ok (st : gmap pystr (pyval pyfloat)) : Prop :=
  forall k v, st !! k = Some v ->
    (k = py "rate_offset" /\ exists z, v = VInt z)
    \/ (k = py "character_scale" /\ exists f, v = VFloat f).

(** The items the handlers put on the queue. *)
Definition queue_item (i : item) : bool :=
  match i with
  | Text _ | EndUtteranceCommand | BeepCommand _ _ => true
  | _ => false
  end.

(** The header rebuilt from the state, followed by [k] copies of the
    version text. *)
Definition header_shape (k : nat) (w : World) : Prop :=
  _header w = header_of (_state w)
              ++ replicate k (Text (py "NVDA " ++ host_version)).

End Server.

(** ** A host to run the server on

    Decimal literals only: [int] reads an optional minus sign and digits,
    [float] reads digits, a point and digits and keeps the digits and
    their scale.  The default rate is 50. *)

Fixpoint digits (acc : Z) (s : pystr) : result Z :=
  match s with
  | [] => Ok acc
  | c :: s' =>
      if ((48 <=? c) && (c <=? 57))%N
      then digits (10 * acc + Z.of_N (c - 48)) s'
      else Raise ValueError
  end.

Definition decimal_int (s : pystr) : result Z :=
  match s with
  | [] => Raise ValueError
  | c :: s' =>
      if (c =? 45)%N
      then match s' with
           | [] => Raise ValueError
           | _ => rbind (digits 0 s') (fun n => Ok (- n))
           end
      else digits 0 s
  end.

Definition decimal_float (s : pystr) : result (Z * nat) :=
  match split 46%N s with
  | [i] => rbind (decimal_int i) (fun n => Ok (n, 0%nat))
  | [i; f] =>
      match i, f with
      | [], [] => Raise ValueError
      | _, _ =>
          rbind (digits 0 i) (fun n =>
          rbind (digits n f) (fun m => Ok (m, length f)))
      end
  | _ => Raise ValueError
  end.

Definition sample_host : Host := {|
  pyfloat := Z * nat;
  py_float := decimal_float;
  py_int := decimal_int;
  defaultRate := 50;
  getSpellingSpeech := fun text => map (fun c => Text [c]) text;
  host_version := py "2019.3"
|}.

End Emacspeaker.

Import Emacspeaker.

(** * Properties *)

(** ** Text *)

Lemma split_cons_inv sep s : exists w ws, split sep s = w :: ws.
Proof.
  destruct s as [|c s]; simpl; [by eauto|].
  destruct (c =? sep)%N; [by eauto|].
  destruct (split sep s); eauto.
Qed.

Lemma split_length sep s : (1 <= length (split sep s))%nat.
Proof. destruct (split_cons_inv sep s) as (w & ws & ->). simpl. lia. Qed.

(** Joining the tokens with the separator gives the text back. *)
Lemma join_split sep s : join [sep] (split sep s) = s.
Proof.
  induction s as [|c s IH]; [done|]. cbn [split].
  destruct (split_cons_inv sep s) as (w & ws & Hs). rewrite Hs in IH |- *.
  destruct (N.eqb_spec c sep) as [->|Hne].
  - change (join [sep] ([] :: w :: ws)) with (sep :: join [sep] (w :: ws)).
    by rewrite IH.
  - destruct ws; simpl in *; by rewrite IH.
Qed.

(** No token holds the separator. *)
Lemma split_no_sep sep s w : w ∈ split sep s -> sep ∉ w.
Proof.
  revert w. induction s as [|c s IH]; simpl; intros w Hw.
  - apply list_elem_of_singleton in Hw as ->. apply not_elem_of_nil.
  - destruct (N.eqb_spec c sep) as [->|Hne].
    + apply elem_of_cons in Hw as [->|Hw]; [apply not_elem_of_nil | by apply IH].
    + destruct (split_cons_inv sep s) as (w0 & ws & Hs). rewrite Hs in Hw, IH.
      apply elem_of_cons in Hw as [->|Hw].
      * intros [?|Hin]%elem_of_cons; [congruence|].
        by apply (IH w0); [left|].
      * apply IH. by right.
Qed.

Lemma lstrip_spec s :
  exists pre, s = pre ++ lstrip s /\ Forall (fun c => isspace c = true) pre
    /\ (forall c r, lstrip s = c :: r -> isspace c = false).
Proof.
  induction s as [|c s (pre & Hs & Hpre & Hhd)]; simpl.
  - exists []. split_and!; [done|constructor|discriminate].
  - destruct (isspace c) eqn:Hc.
    + exists (c :: pre). split_and!; [by rewrite Hs at 1|by constructor|done].
    + exists []. split_and!; [done|constructor|]. by intros ? ? [= <- _].
Qed.

(** [strip] removes a run of whitespace at each end and nothing else. *)
Lemma strip_spec s :
  exists pre post, s = pre ++ strip s ++ post
    /\ Forall (fun c => isspace c = true) pre
    /\ Forall (fun c => isspace c = true) post
    /\ (forall c r, strip s = c :: r -> isspace c = false)
    /\ (forall c r, strip s = r ++ [c] -> isspace c = false).
Proof.
  destruct (lstrip_spec s) as (pre & Hs & Hpre & Hhd).
  destruct (lstrip_spec (rev (lstrip s))) as (post & Hr & Hpost & Htl).
  assert (Hl : lstrip s = strip s ++ rev post).
  { unfold strip, rstrip. rewrite <- rev_app_distr, <- Hr. by rewrite rev_involutive. }
  exists pre, (rev post). split_and!.
  - by rewrite <- Hl.
  - done.
  - by apply Forall_rev.
  - intros c r Hc. apply (Hhd c (r ++ rev post)). by rewrite Hl, Hc.
  - intros c r Hc. apply (Htl c (rev r)).
    unfold strip, rstrip in Hc. apply (f_equal (@rev N)) in Hc.
    by rewrite rev_involutive, rev_unit in Hc.
Qed.

(** ** The tokenizer *)

Lemma startswith_one c a :
  startswith [c] a = match a with x :: _ => (x =? c)%N | [] => false end.
Proof.
  unfold startswith. destruct a as [|x a]; simpl; [done|].
  destruct (N.eqb_spec x c) as [->|Hne].
  - by rewrite take_0, bool_decide_eq_true_2.
  - rewrite take_0. apply bool_decide_eq_false_2. congruence.
Qed.

Lemma endswith_one c a :
  endswith [c] a = match rev a with x :: _ => (x =? c)%N | [] => false end.
Proof.
  unfold endswith. destruct a as [|x a _] using rev_ind; [done|].
  rewrite rev_unit, length_app. simpl.
  replace (length a + 1 - 1)%nat with (length a) by lia.
  rewrite drop_app_length.
  destruct (N.eqb_spec x c) as [->|Hne].
  - by rewrite bool_decide_eq_true_2.
  - apply bool_decide_eq_false_2. congruence.
Qed.

Lemma on_last_cons {A} (f : A -> A) y l :
  l <> [] -> on_last f (y :: l) = y :: on_last f l.
Proof. by destruct l. Qed.

Lemma on_last_snoc {A} (f : A -> A) l x : on_last f (l ++ [x]) = l ++ [f x].
Proof.
  induction l as [|y l IH]; [done|].
  change ((y :: l) ++ [x]) with (y :: (l ++ [x])).
  rewrite on_last_cons, IH; [done|by destruct l].
Qed.

Lemma getitem_last_snoc {A} (l : list A) x : getitem_last (l ++ [x]) = Ok x.
Proof.
  unfold getitem_last, getitem, last_index.
  destruct (l ++ [x]) eqn:E; [by destruct l|]. rewrite <- E.
  rewrite length_app. simpl.
  replace (length l + 1 - 1)%nat with (length l) by lia.
  by rewrite list_lookup_middle.
Qed.

Lemma strip_rbrace_eq tl :
  (if endswith [rbrace] tl then take (length tl - 1) tl else tl) = strip_rbrace tl.
Proof.
  rewrite endswith_one. unfold strip_rbrace.
  destruct tl as [|x tl _] using rev_ind; [done|].
  rewrite rev_unit, length_app. simpl.
  replace (length tl + 1 - 1)%nat with (length tl) by lia.
  rewrite take_app_length, rev_involutive. by destruct (x =? rbrace)%N.
Qed.

Lemma strip_lbrace_eq t1 :
  (if startswith [lbrace] t1 then drop 1 t1 else t1) = strip_lbrace t1.
Proof.
  rewrite startswith_one. destruct t1 as [|x t1]; [done|]. simpl.
  by rewrite drop_0.
Qed.

(** The closing-brace assignment rewrites the last token and no other. *)
Lemma rbrace_step (tk : list pystr) :
  tk <> [] ->
  rbind (getitem_last tk) (fun tl =>
    Ok (if endswith [rbrace] tl
        then <[last_index tk := take (length tl - 1) tl]> tk else tk))
  = Ok (on_last strip_rbrace tk).
Proof.
  destruct tk as [|x tk _] using rev_ind; [done|]. intros _.
  rewrite getitem_last_snoc, on_last_snoc. simpl.
  rewrite <- strip_rbrace_eq. destruct (endswith [rbrace] x); [|done].
  unfold last_index. rewrite length_app. simpl.
  replace (length tk + 1 - 1)%nat with (length tk + 0)%nat by lia.
  by rewrite insert_app_r.
Qed.

Lemma padded_cons2 cmd : exists name a1 rest, padded cmd = name :: a1 :: rest.
Proof.
  unfold padded. destruct (split_cons_inv space (strip cmd)) as (w & ws & ->).
  destruct ws as [|w' ws]; simpl; eauto.
Qed.

Lemma tokenize_tokens_of_line cmd : tokenize cmd = Ok (tokens_of_line cmd).
Proof.
  unfold tokenize, tokens_of_line.
  assert (Hp : (if decide (length (split space (strip cmd)) < 2)%nat
                then split space (strip cmd) ++ [[]]
                else split space (strip cmd)) = padded cmd).
  { unfold padded. destruct (Nat.ltb_spec (length (split space (strip cmd))) 2);
      [by rewrite decide_True|by rewrite decide_False by lia]. }
  rewrite Hp. destruct (padded_cons2 cmd) as (name & a1 & rest & ->).
  cbn [getitem lookup list_lookup rbind on_first].
  assert (Hl : (if startswith [lbrace] a1
                then <[1%nat:=drop 1 a1]> (name :: a1 :: rest)
                else name :: a1 :: rest) = name :: strip_lbrace a1 :: rest).
  { rewrite <- strip_lbrace_eq. by destruct (startswith [lbrace] a1). }
  rewrite Hl. by rewrite rbrace_step.
Qed.

Lemma on_last_length {A} (f : A -> A) l : length (on_last f l) = length l.
Proof.
  destruct l as [|x l _] using rev_ind; [done|].
  by rewrite on_last_snoc, !length_app.
Qed.

Lemma on_last_lookup_lt {A} (f : A -> A) (l : list A) i :
  (i < length l - 1)%nat -> on_last f l !! i = l !! i.
Proof.
  destruct l as [|x l _] using rev_ind; [done|].
  rewrite on_last_snoc, length_app. simpl. intros Hi.
  by rewrite !lookup_app_l by lia.
Qed.

Lemma on_last_lookup_last {A} (f : A -> A) (l : list A) x :
  l !! (length l - 1)%nat = Some x ->
  on_last f l !! (length l - 1)%nat = Some (f x).
Proof.
  destruct l as [|y l _] using rev_ind; [done|].
  rewrite on_last_snoc, length_app. simpl.
  replace (length l + 1 - 1)%nat with (length l) by lia.
  rewrite !list_lookup_middle by done. by intros [= ->].
Qed.

Lemma padded_split cmd :
  padded cmd = split space (strip cmd)
  \/ exists name, split space (strip cmd) = [name] /\ padded cmd = [name; []].
Proof.
  unfold padded. destruct (split_cons_inv space (strip cmd)) as (w & ws & ->).
  destruct ws; simpl; eauto.
Qed.

(** C4. Tokenizing a line trims it, splits it at every space and pads a
    lone command name with one empty argument; it never raises.  Of the
    resulting tokens the command name is kept, the first argument loses at
    most one opening brace, the last argument at most one closing brace,
    and every argument strictly between them is kept as it is.  The line
    [q {hello world}] gives the arguments [hello] and [world]. *)
Theorem tokenizer_contract (cmd : pystr) :
  tokenize cmd = Ok (tokens_of_line cmd)
  /\ (exists pre post, cmd = pre ++ strip cmd ++ post
        /\ Forall (fun c => isspace c = true) pre
        /\ Forall (fun c => isspace c = true) post
        /\ (forall c r, strip cmd = c :: r -> isspace c = false)
        /\ (forall c r, strip cmd = r ++ [c] -> isspace c = false))
  /\ join [space] (split space (strip cmd)) = strip cmd
  /\ (forall tok, tok ∈ split space (strip cmd) -> space ∉ tok)
  /\ (padded cmd = split space (strip cmd)
      \/ exists name, split space (strip cmd) = [name] /\ padded cmd = [name; []])
  /\ (2 <= length (tokens_of_line cmd))%nat
  /\ length (tokens_of_line cmd) = length (padded cmd)
  /\ tokens_of_line cmd !! 0%nat = padded cmd !! 0%nat
  /\ (forall i, (1 < i < length (padded cmd) - 1)%nat ->
        tokens_of_line cmd !! i = padded cmd !! i)
  /\ (forall a, (2 < length (padded cmd))%nat -> padded cmd !! 1%nat = Some a ->
        tokens_of_line cmd !! 1%nat = Some (strip_lbrace a))
  /\ (forall a, (2 < length (padded cmd))%nat ->
        padded cmd !! (length (padded cmd) - 1)%nat = Some a ->
        tokens_of_line cmd !! (length (padded cmd) - 1)%nat = Some (strip_rbrace a))
  /\ (forall a, length (padded cmd) = 2%nat -> padded cmd !! 1%nat = Some a ->
        tokens_of_line cmd !! 1%nat = Some (strip_rbrace (strip_lbrace a)))
  /\ tokenize (py "q {hello world}") = Ok [py "q"; py "hello"; py "world"].
Proof.
  split; [apply tokenize_tokens_of_line|]. split; [apply strip_spec|].
  split; [apply join_split|]. split; [intros tok; apply split_no_sep|].
  split; [apply padded_split|].
  unfold tokens_of_line.
  destruct (padded_cons2 cmd) as (name & a1 & rest & ->).
  cbn [on_first length]. rewrite on_last_length. cbn [length].
  split_and!; try done.
  - lia.
  - intros [|[|i]] Hi; try lia.
    change ((name :: on_last strip_rbrace (strip_lbrace a1 :: rest)) !! S (S i))
      with (on_last strip_rbrace (strip_lbrace a1 :: rest) !! S i).
    rewrite on_last_lookup_lt by (cbn [length]; lia). done.
  - intros a Hlen [= <-].
    change ((name :: on_last strip_rbrace (strip_lbrace a1 :: rest)) !! 1%nat)
      with (on_last strip_rbrace (strip_lbrace a1 :: rest) !! 0%nat).
    rewrite on_last_lookup_lt by (cbn [length]; lia). done.
  - intros a Hlen Ha.
    replace (S (S (length rest)) - 1)%nat with (S (length rest)) in * by lia.
    destruct rest as [|r rest]; [simpl in Hlen; lia|].
    change ((name :: on_last strip_rbrace (strip_lbrace a1 :: r :: rest))
              !! S (length (r :: rest)))
      with (on_last strip_rbrace (strip_lbrace a1 :: r :: rest)
              !! (length (strip_lbrace a1 :: r :: rest) - 1)%nat).
    apply on_last_lookup_last. cbn [length].
    replace (S (S (length rest)) - 1)%nat with (S (length rest)) by lia.
    exact Ha.
  - intros a Hlen [= <-]. destruct rest; [done|simpl in Hlen; lia].
Qed.

Lemma tokenizer_contract_witness :
  tokens_of_line (py "q {a {b} c}") !! 2%nat = Some (py "{b}")
  /\ tokens_of_line (py "q {a {b} c}") !! 1%nat = Some (py "a")
  /\ tokens_of_line (py "q {a {b} c}") !! 3%nat = Some (py "c")
  /\ tokens_of_line (py "d {}") !! 1%nat = Some [].
Proof.
  pose proof (tokenizer_contract (py "q {a {b} c}"))
    as (_ & _ & _ & _ & _ & _ & _ & _ & Hmid & Hfst & Hlst & _).
  pose proof (tokenizer_contract (py "d {}"))
    as (_ & _ & _ & _ & _ & _ & _ & _ & _ & _ & _ & Hone & _).
  split_and!.
  - rewrite (Hmid 2%nat); [reflexivity|vm_compute; lia].
  - apply (Hfst (py "{a")); [vm_compute; lia|reflexivity].
  - apply (Hlst (py "c}")); [vm_compute; lia|reflexivity].
  - apply (Hone (py "{}")); reflexivity.
Defined.

(** ** The dispatcher *)

Section Properties.

Context `{H : Host}.

(** *** The table *)

Lemma command_names_eq :
  command_names =
  [ py "tts_saytext"; py "q"; py "d"; py "l"; py "tts_pause"; py "tts_resume";
    py "s"; py "t"; py "tts_set_speech_rate"; py "tts_set_character_scale";
    py "version"; py "tts_reset" ].
Proof. reflexivity. Qed.

Lemma command_names_NoDup : NoDup command_names.
Proof. rewrite command_names_eq. apply (bool_decide_unpack _). by vm_compute. Qed.

Lemma cmdMap_Some name c : _cmdMap !! name = Some c -> (name, c) ∈ _cmdMap_items.
Proof. apply elem_of_list_to_map_2. Qed.

Lemma cmdMap_None name : name ∉ command_names -> _cmdMap !! name = None.
Proof.
  intros Hn. apply not_elem_of_list_to_map_1.
  intros Hin. apply Hn. unfold command_names.
  apply list_elem_of_fmap in Hin as ((n & c) & -> & Hin).
  apply list_elem_of_In, in_map_iff. exists (n, c). split; [done|].
  by apply list_elem_of_In.
Qed.

Lemma dispatch_tts_saytext args w :
  dispatch (py "tts_saytext" :: args) w = tts_saytext args w.
Proof. reflexivity. Qed.

Lemma dispatch_q args w : dispatch (py "q" :: args) w = q args w.
Proof. reflexivity. Qed.

Lemma dispatch_d args w : dispatch (py "d" :: args) w = d args w.
Proof. reflexivity. Qed.

Lemma dispatch_l args w : dispatch (py "l" :: args) w = l args w.
Proof. reflexivity. Qed.

Lemma dispatch_s args w : dispatch (py "s" :: args) w = s args w.
Proof. reflexivity. Qed.

Lemma dispatch_t args w : dispatch (py "t" :: args) w = t args w.
Proof. reflexivity. Qed.

Lemma dispatch_setRate args w :
  dispatch (py "tts_set_speech_rate" :: args) w = setRate args w.
Proof. reflexivity. Qed.

Lemma dispatch_setCharacterScale args w :
  dispatch (py "tts_set_character_scale" :: args) w = setCharacterScale args w.
Proof. reflexivity. Qed.

Lemma dispatch_version args w :
  dispatch (py "version" :: args) w = version args w.
Proof. reflexivity. Qed.

(** *** What each handler does to the world *)

Lemma q_spec args w :
  q args w = (Ok tt, mkWorld (_state w) (_header w)
                (_queue w ++ [Text (join [space] args); EndUtteranceCommand])
                (backend w)).
Proof. reflexivity. Qed.

Lemma d_spec args w :
  d args w = (Ok tt, mkWorld (_state w) (_header w) []
                (backend w ++ [speak (_header w ++ _queue w) NOW])).
Proof. reflexivity. Qed.

Lemma s_spec args w :
  s args w = (Ok tt, mkWorld (_state w) (_header w) []
                (backend w ++ [cancelSpeech])).
Proof. reflexivity. Qed.

Lemma version_spec args w :
  version args w =
  (Ok tt, mkWorld (_state w) (_header w ++ [Text (py "NVDA " ++ host_version)])
            (_queue w)
            (backend w ++ [speak (_header w ++ [Text (py "NVDA " ++ host_version)]) NOW])).
Proof. reflexivity. Qed.

Lemma l_spec args w :
  l args w =
  (Ok tt, mkWorld (_state w) (_header w) (_queue w)
            ((backend w ++ [cancelSpeech]) ++
             [speak ((match _state w !! py "character_scale" with
                      | Some v => _header w ++ [RateCommand_multiplier v]
                      | None => _header w
                      end) ++ getSpellingSpeech (join [] args)) NOW])).
Proof. reflexivity. Qed.

Lemma buildHeader_spec w :
  _buildHeader w = (Ok tt, mkWorld (_state w) (header_of (_state w)) (_queue w) (backend w)).
Proof.
  unfold _buildHeader, header_of, mbind, M_bind, modify, gets, set_header.
  cbn [_state _header _queue backend].
  by destruct (_state w !! py "rate_offset").
Qed.

(** C3. From any state, [q] with a text and then [d] make one call to the
    speech framework: an immediate-priority [speak] of the header items,
    then what was queued, ending with the text and an end-of-utterance
    marker, in this order.  [q] itself makes no call, and after [d] the
    queue is empty. *)
Theorem q_then_d (w : World) (args dargs : list pystr) :
  let w1 := exec (dispatch (py "q" :: args)) w in
  let w2 := exec (dispatch (py "d" :: dargs)) w1 in
  outcome (dispatch (py "q" :: args)) w = Ok tt
  /\ backend w1 = backend w
  /\ outcome (dispatch (py "d" :: dargs)) w1 = Ok tt
  /\ backend w2 =
       backend w ++
       [speak (_header w ++ _queue w ++
               [Text (join [space] args); EndUtteranceCommand]) NOW]
  /\ _queue w2 = []
  /\ (_queue w = [] ->
      backend w2 =
        backend w ++
        [speak (_header w ++ [Text (join [space] args); EndUtteranceCommand]) NOW]).
Proof.
  unfold exec, outcome. rewrite dispatch_q, q_spec. cbn [fst snd].
  rewrite dispatch_d, d_spec. cbn.
  split_and!; try done. by intros ->.
Qed.

(** C5. [d] empties the queue and leaves the header as it was, whatever
    the header is. *)
Theorem d_keeps_header (w : World) (args : list pystr) :
  outcome (dispatch (py "d" :: args)) w = Ok tt
  /\ _header (exec (dispatch (py "d" :: args)) w) = _header w
  /\ _queue (exec (dispatch (py "d" :: args)) w) = []
  /\ _state (exec (dispatch (py "d" :: args)) w) = _state w.
Proof. unfold exec, outcome. by rewrite dispatch_d, d_spec. Qed.

(** C7. [s] makes one call, [cancelSpeech], and no [speak]; it empties the
    queue.  A [d] right after it speaks the header items and nothing
    else. *)
Theorem s_then_d (w : World) (args dargs : list pystr) :
  let w1 := exec (dispatch (py "s" :: args)) w in
  let w2 := exec (dispatch (py "d" :: dargs)) w1 in
  outcome (dispatch (py "s" :: args)) w = Ok tt
  /\ backend w1 = backend w ++ [cancelSpeech]
  /\ _queue w1 = []
  /\ _header w1 = _header w
  /\ _state w1 = _state w
  /\ outcome (dispatch (py "d" :: dargs)) w1 = Ok tt
  /\ backend w2 = backend w1 ++ [speak (_header w) NOW]
  /\ _queue w2 = [].
Proof.
  unfold exec, outcome. rewrite dispatch_s, s_spec. cbn [fst snd].
  rewrite dispatch_d, d_spec. cbn. by rewrite app_nil_r.
Qed.

(** *** Handlers that read numbers *)

Lemma reset_spec w : reset w = (Ok tt, mkWorld ∅ [] (_queue w) (backend w)).
Proof. reflexivity. Qed.

Lemma t_wrong_arity args w : length args <> 2%nat -> t args w = (Ok tt, w).
Proof. intros Hn. unfold t. by rewrite decide_True. Qed.

Lemma t_tone a b f n w :
  py_float a = Ok f -> py_int b = Ok n ->
  t [a; b] w = (Ok tt, mkWorld (_state w) (_header w)
                  (_queue w ++ [BeepCommand f n]) (backend w)).
Proof.
  intros Hf Hn. unfold t, mbind, M_bind, lift, getitem. cbn.
  by rewrite Hf, Hn.
Qed.

Lemma t_bad_float a b e w : py_float a = Raise e -> t [a; b] w = (Raise e, w).
Proof.
  intros Hf. unfold t, mbind, M_bind, lift, getitem. cbn. by rewrite Hf.
Qed.

Lemma t_bad_int a b f e w :
  py_float a = Ok f -> py_int b = Raise e -> t [a; b] w = (Raise e, w).
Proof.
  intros Hf Hn. unfold t, mbind, M_bind, lift, getitem. cbn.
  by rewrite Hf, Hn.
Qed.

Lemma setRate_ok a rest r w :
  py_int a = Ok r ->
  setRate (a :: rest) w =
  (Ok tt, mkWorld (<[py "rate_offset" := VInt (r - defaultRate)]> (_state w))
            [RateCommand_offset (VInt (r - defaultRate))] (_queue w) (backend w)).
Proof.
  intros Hr. unfold setRate, mbind, M_bind, lift, getitem, modify.
  cbn [lookup list_lookup]. rewrite Hr, buildHeader_spec.
  unfold set_state, header_of. cbn [_state _header _queue backend].
  by rewrite lookup_insert_eq.
Qed.

Lemma setRate_bad a rest e w :
  py_int a = Raise e -> setRate (a :: rest) w = (Raise e, w).
Proof.
  intros Hr. unfold setRate, mbind, M_bind, lift, getitem.
  cbn [lookup list_lookup]. by rewrite Hr.
Qed.

Lemma setCharacterScale_ok a rest f w :
  py_float a = Ok f ->
  setCharacterScale (a :: rest) w =
  (Ok tt, mkWorld (<[py "character_scale" := VFloat f]> (_state w))
            (_header w) (_queue w) (backend w)).
Proof.
  intros Hf. unfold setCharacterScale, mbind, M_bind, lift, getitem.
  cbn [lookup list_lookup]. by rewrite Hf.
Qed.

Lemma setCharacterScale_bad a rest e w :
  py_float a = Raise e -> setCharacterScale (a :: rest) w = (Raise e, w).
Proof.
  intros Hf. unfold setCharacterScale, mbind, M_bind, lift, getitem.
  cbn [lookup list_lookup]. by rewrite Hf.
Qed.

Lemma parseCommand_dispatch cmd w :
  parseCommand cmd w = dispatch (tokens_of_line cmd) w.
Proof.
  unfold parseCommand, mbind, M_bind, lift.
  by rewrite tokenize_tokens_of_line.
Qed.

Lemma command_name_tokens cmd :
  exists args, tokens_of_line cmd = command_name cmd :: args.
Proof.
  unfold command_name. rewrite tokenize_tokens_of_line.
  unfold tokens_of_line. destruct (padded_cons2 cmd) as (n & a & r & ->). eauto.
Qed.

(** C8. [t] with a number of arguments other than two returns and changes
    nothing: state, header, queue and the log of calls are as before.
    With two arguments that read as a float and an integer it appends one
    tone request made of these two numbers to the queue, and changes
    nothing else. *)
Theorem t_arity_and_tone (w : World) (args : list pystr) (a b : pystr)
    (f : pyfloat) (n : Z) :
  length args <> 2%nat -> py_float a = Ok f -> py_int b = Ok n ->
  dispatch (py "t" :: args) w = (Ok tt, w)
  /\ dispatch [py "t"; a; b] w =
       (Ok tt, mkWorld (_state w) (_header w)
                 (_queue w ++ [BeepCommand f n]) (backend w)).
Proof.
  intros Hargs Hf Hn. rewrite !dispatch_t. split.
  - by apply t_wrong_arity.
  - by apply t_tone.
Qed.

(** C9. The dispatch table has twelve names.  A line whose command name
    is none of them is parsed without an exception and leaves the state,
    the header, the queue and the log of calls as they were. *)
Theorem unknown_command_ignored (cmd : pystr) (w : World) :
  command_name cmd ∉ command_names ->
  length command_names = 12%nat /\ parseCommand cmd w = (Ok tt, w).
Proof.
  intros Hn. split; [reflexivity|].
  rewrite parseCommand_dispatch.
  destruct (command_name_tokens cmd) as (args & ->).
  unfold dispatch, mbind, M_bind, lift, getitem. cbn [lookup list_lookup].
  by rewrite cmdMap_None.
Qed.

(** C10. When the number a command needs does not parse, the exception
    leaves before anything is written: [tts_set_speech_rate],
    [tts_set_character_scale] and [t] (on either of its two numbers) end
    with the exception of the parse and with the state, the header, the
    queue and the log of calls exactly as before. *)
Theorem numeric_failure_is_atomic (w : World) (a b good : pystr)
    (rest : list pystr) (e1 e2 : exn) (f : pyfloat) :
  py_int a = Raise e1 -> py_float b = Raise e2 -> py_float good = Ok f ->
  dispatch (py "tts_set_speech_rate" :: a :: rest) w = (Raise e1, w)
  /\ dispatch (py "tts_set_character_scale" :: b :: rest) w = (Raise e2, w)
  /\ (forall x, dispatch [py "t"; b; x] w = (Raise e2, w))
  /\ dispatch [py "t"; good; a] w = (Raise e1, w).
Proof.
  intros Ha Hb Hgood.
  rewrite dispatch_setRate, dispatch_setCharacterScale, dispatch_t.
  split_and!.
  - by apply setRate_bad.
  - by apply setCharacterScale_bad.
  - intros x. rewrite dispatch_t. by apply t_bad_float.
  - by apply (t_bad_int good a f).
Qed.

(** C2. The table calls every handler with the argument list, and [reset]
    takes none: dispatching [tts_reset] raises [TypeError] and changes
    nothing, so the state is not cleared and the header is not rebuilt.
    Called without an argument, [reset] does clear the state and empty the
    header. *)
Theorem tts_reset_raises (w : World) (args : list pystr) :
  dispatch (py "tts_reset" :: args) w = (Raise TypeError, w)
  /\ parseCommand (py "tts_reset") w = (Raise TypeError, w)
  /\ reset w = (Ok tt, mkWorld ∅ [] (_queue w) (backend w)).
Proof. split_and!; reflexivity. Qed.

(** C1. [version] appends the version text to the header itself: after
    it the header is one item longer, and from the initial state it holds
    the version text while the header rebuilt from the state is empty. *)
Theorem version_grows_header (w : World) (args : list pystr) :
  _header (exec (dispatch (py "version" :: args)) w)
    = _header w ++ [Text (py "NVDA " ++ host_version)]
  /\ _state (exec (dispatch (py "version" :: args)) w) = _state w
  /\ _header (exec (parseCommand (py "version")) init)
       = [Text (py "NVDA " ++ host_version)]
  /\ header_of (_state (exec (parseCommand (py "version")) init)) = []
  /\ backend (exec (parseCommand (py "version"))
                (exec (parseCommand (py "version")) init))
       = [speak [Text (py "NVDA " ++ host_version)] NOW;
          speak [Text (py "NVDA " ++ host_version);
                 Text (py "NVDA " ++ host_version)] NOW].
Proof. split_and!; reflexivity. Qed.

(** *** What a dispatched command can do to the header and the rate *)

Lemma dispatch_cons name args w :
  dispatch (name :: args) w =
  match _cmdMap !! name with
  | Some handler => call handler args w
  | None => (Ok tt, w)
  end.
Proof.
  unfold dispatch, mbind, M_bind, lift, getitem. cbn [lookup list_lookup].
  by destruct (_cmdMap !! name).
Qed.

Lemma t_frame args w :
  _state (exec (t args) w) = _state w
  /\ _header (exec (t args) w) = _header w
  /\ backend (exec (t args) w) = backend w.
Proof.
  unfold exec, t. destruct (decide (length args <> 2%nat)) as [|Hlen]; [done|].
  destruct args as [|a [|b [|c args]]]; try (exfalso; apply Hlen; simpl; lia).
  unfold mbind, M_bind, lift, getitem. cbn.
  destruct (py_float a); [|done]. by destruct (py_int b).
Qed.

Lemma rate_offset_ne_character_scale : py "character_scale" <> py "rate_offset".
Proof. intros Heq. vm_compute in Heq. discriminate. Qed.

Lemma setCharacterScale_frame args w :
  _state (exec (setCharacterScale args) w) !! py "rate_offset"
    = _state w !! py "rate_offset"
  /\ _header (exec (setCharacterScale args) w) = _header w
  /\ _queue (exec (setCharacterScale args) w) = _queue w
  /\ backend (exec (setCharacterScale args) w) = backend w.
Proof.
  unfold exec. destruct args as [|a rest]; [done|].
  destruct (py_float a) as [f|e] eqn:Hf.
  - rewrite (setCharacterScale_ok a rest f w Hf). cbn [snd _state _header _queue backend].
    split_and!; try done. apply lookup_insert_ne, rate_offset_ne_character_scale.
  - by rewrite (setCharacterScale_bad a rest e w Hf).
Qed.

Lemma call_frame name c args w :
  (name, c) ∈ _cmdMap_items -> name <> py "tts_set_speech_rate" ->
  _state (exec (call c args) w) !! py "rate_offset" = _state w !! py "rate_offset"
  /\ (_header (exec (call c args) w) = _header w
      \/ name = py "version"
         /\ _header (exec (call c args) w)
            = _header w ++ [Text (py "NVDA " ++ host_version)]).
Proof.
  unfold _cmdMap_items. intros Hin Hne.
  repeat (apply elem_of_cons in Hin as [Hin|Hin]);
    try (apply pair_equal_spec in Hin as [-> ->]);
    try (by apply elem_of_nil in Hin);
    try (split; [reflexivity|left; reflexivity]).
  - destruct (t_frame args w) as (Hs & Hh & _). cbn [call].
    rewrite Hs, Hh. by split; [|left].
  - done.
  - destruct (setCharacterScale_frame args w) as (Hs & Hh & _). cbn [call].
    rewrite Hs, Hh. by split; [|left].
  - split; [reflexivity|right]. by split.
Qed.

Lemma rate_kept_step off cmd w :
  command_name cmd <> py "tts_set_speech_rate" ->
  rate_kept off w -> rate_kept off (exec (parseCommand cmd) w).
Proof.
  intros Hne [Hst Hhd]. unfold exec. rewrite parseCommand_dispatch.
  destruct (command_name_tokens cmd) as (args & ->). rewrite dispatch_cons.
  destruct (_cmdMap !! command_name cmd) as [c|] eqn:E; [|done].
  apply cmdMap_Some in E.
  destruct (call_frame _ _ args w E Hne) as [Hs [Hh|[_ Hh]]];
    unfold rate_kept, exec in *; rewrite Hs, Hh; [done|].
  split; [done|]. rewrite List.filter_app, Hhd. reflexivity.
Qed.

Lemma rate_kept_serve off lines w :
  Forall (fun c => command_name c <> py "tts_set_speech_rate") lines ->
  rate_kept off w -> rate_kept off (serve lines w).
Proof.
  intros Hlines. revert w.
  induction Hlines as [|cmd lines Hcmd _ IH]; intros w Hw; [done|].
  apply (IH (exec (parseCommand cmd) w)). by apply rate_kept_step.
Qed.

Lemma speaking_command_submits_header cmd w :
  command_name cmd ∈ [py "d"; py "l"; py "version"] ->
  exists pre body,
    backend (exec (parseCommand cmd) w)
      = backend w ++ pre ++ [speak (_header w ++ body) NOW]
    /\ (pre = [] \/ pre = [cancelSpeech]).
Proof.
  intros Hin. unfold exec. rewrite parseCommand_dispatch.
  destruct (command_name_tokens cmd) as (args & ->).
  repeat (apply elem_of_cons in Hin as [->|Hin]); [| | |by apply elem_of_nil in Hin].
  - rewrite dispatch_d, d_spec. exists [], (_queue w). by split; [|left].
  - rewrite dispatch_l, l_spec. cbn [snd backend].
    destruct (_state w !! py "character_scale") as [v|].
    + exists [cancelSpeech], ([RateCommand_multiplier v] ++ getSpellingSpeech (join [] args)).
      split; [|by right]. by rewrite <- !app_assoc.
    + exists [cancelSpeech], (getSpellingSpeech (join [] args)).
      split; [|by right]. by rewrite <- !app_assoc.
  - rewrite dispatch_version, version_spec.
    exists [], [Text (py "NVDA " ++ host_version)]. by split; [|left].
Qed.

(** C6. A line [tts_set_speech_rate r] whose argument reads as the
    integer [r] stores [r - defaultRate] under [rate_offset] and leaves a
    header of exactly one rate entry with this offset.  Whatever lines
    follow, as long as none sets the rate again, the state keeps the
    offset and the header keeps exactly one rate entry, this one; and a
    [d], [l] or [version] handled then submits one [speak] that starts
    with the header. *)
Theorem set_speech_rate (w : World) (line0 a : pystr) (rest : list pystr)
    (r : Z) (lines : list pystr) (cmd : pystr) :
  tokenize line0 = Ok (py "tts_set_speech_rate" :: a :: rest) ->
  py_int a = Ok r ->
  Forall (fun c => command_name c <> py "tts_set_speech_rate") lines ->
  command_name cmd ∈ [py "d"; py "l"; py "version"] ->
  let off := VInt (r - defaultRate) in
  let w1 := exec (parseCommand line0) w in
  let w2 := serve lines w1 in
  let w3 := exec (parseCommand cmd) w2 in
  outcome (parseCommand line0) w = Ok tt
  /\ _state w1 !! py "rate_offset" = Some off
  /\ _header w1 = [RateCommand_offset off]
  /\ _state w2 !! py "rate_offset" = Some off
  /\ List.filter is_rate_offset (_header w2) = [RateCommand_offset off]
  /\ exists pre body,
       backend w3 = backend w2 ++ pre ++ [speak (_header w2 ++ body) NOW]
       /\ (pre = [] \/ pre = [cancelSpeech]).
Proof.
  intros Htok Hr Hlines Hcmd off w1 w2 w3.
  assert (H1 : parseCommand line0 w =
               (Ok tt, mkWorld (<[py "rate_offset" := off]> (_state w))
                         [RateCommand_offset off] (_queue w) (backend w))).
  { unfold parseCommand, mbind, M_bind, lift. rewrite Htok.
    rewrite dispatch_setRate. by apply setRate_ok. }
  assert (Hk1 : rate_kept off w1).
  { unfold w1, exec. rewrite H1. split; [apply lookup_insert_eq|done]. }
  destruct (rate_kept_serve off lines w1 Hlines Hk1) as [Hs2 Hh2].
  split_and!.
  - unfold outcome. by rewrite H1.
  - apply Hk1.
  - unfold w1, exec. by rewrite H1.
  - exact Hs2.
  - exact Hh2.
  - by apply speaking_command_submits_header.
Qed.

(** Every command but [version] keeps the header equal to the header
    rebuilt from the state. *)
Lemma header_rebuilt_step cmd w :
  command_name cmd <> py "version" ->
  header_rebuilt w -> header_rebuilt (exec (parseCommand cmd) w).
Proof.
  intros Hne Hw. unfold exec. rewrite parseCommand_dispatch.
  destruct (command_name_tokens cmd) as (args & ->). rewrite dispatch_cons.
  destruct (_cmdMap !! command_name cmd) as [c|] eqn:E; [|done].
  apply cmdMap_Some in E.
  destruct (decide (command_name cmd = py "tts_set_speech_rate")) as [Heq|Hrate].
  - assert (c = Unary setRate) as ->.
    { revert E. rewrite Heq.
      unfold _cmdMap_items. intros Hin.
      repeat (apply elem_of_cons in Hin as [Hin|Hin]);
        try (by apply elem_of_nil in Hin);
        try (apply pair_equal_spec in Hin as [Hn Hc]; vm_compute in Hn; discriminate).
      by apply pair_equal_spec in Hin as [_ ->]. }
    cbn [call]. destruct args as [|a rest]; [done|].
    destruct (py_int a) as [r|e] eqn:Hr.
    + rewrite (setRate_ok a rest r w Hr). unfold header_rebuilt, header_of.
      cbn [snd _state _header]. by rewrite lookup_insert_eq.
    + by rewrite (setRate_bad a rest e w Hr).
  - destruct (call_frame _ _ args w E Hrate) as [Hs [Hh|[Hv _]]]; [|done].
    unfold header_rebuilt, header_of, exec in *. by rewrite Hh, Hs.
Qed.

End Properties.

(** ** The properties on the sample host *)

Lemma q_then_d_witness :
  backend (exec (dispatch (H := sample_host) [py "d"])
             (exec (dispatch (H := sample_host) [py "q"; py "hello"; py "world"]) init))
  = [speak [Text (py "hello world"); EndUtteranceCommand] NOW].
Proof.
  pose proof (q_then_d (H := sample_host) init [py "hello"; py "world"] [])
    as (_ & _ & _ & _ & _ & Hw).
  apply Hw. reflexivity.
Defined.

Lemma t_arity_and_tone_witness :
  dispatch (H := sample_host) [py "t"; py "0.5"] init = (Ok tt, init)
  /\ dispatch (H := sample_host) [py "t"; py "0.5"; py "440"] init
     = (Ok tt, mkWorld (H := sample_host) ∅ [] [BeepCommand (5, 1%nat) 440] []).
Proof.
  apply (t_arity_and_tone (H := sample_host) init [py "0.5"] (py "0.5") (py "440")
           (5, 1%nat) 440).
  - simpl. lia.
  - reflexivity.
  - reflexivity.
Defined.

Lemma unknown_command_ignored_witness :
  length (command_names (H := sample_host)) = 12%nat
  /\ parseCommand (H := sample_host) (py "tts_sync_state {all}") init = (Ok tt, init).
Proof.
  apply (unknown_command_ignored (H := sample_host) (py "tts_sync_state {all}") init).
  apply (bool_decide_unpack _). vm_compute. exact I.
Defined.

Lemma numeric_failure_is_atomic_witness :
  dispatch (H := sample_host) [py "tts_set_speech_rate"; py "fast"] init
    = (Raise ValueError, init)
  /\ dispatch (H := sample_host) [py "tts_set_character_scale"; py "big"] init
    = (Raise ValueError, init)
  /\ (forall x, dispatch (H := sample_host) [py "t"; py "big"; x] init
        = (Raise ValueError, init))
  /\ dispatch (H := sample_host) [py "t"; py "0.5"; py "fast"] init
    = (Raise ValueError, init).
Proof.
  apply (numeric_failure_is_atomic (H := sample_host) init (py "fast") (py "big")
           (py "0.5") [] ValueError ValueError (5, 1%nat)); reflexivity.
Defined.

Lemma set_speech_rate_witness :
  let w1 := exec (parseCommand (H := sample_host) (py "tts_set_speech_rate 250")) init in
  let w2 := serve [py "q {hi}"; py "version"; py "tts_reset";
                   py "tts_set_character_scale 1.5"] w1 in
  let w3 := exec (parseCommand (py "l {a}")) w2 in
  _state w1 !! py "rate_offset" = Some (VInt 200)
  /\ _header w1 = [RateCommand_offset (VInt 200)]
  /\ List.filter is_rate_offset (_header w2) = [RateCommand_offset (VInt 200)]
  /\ exists pre body,
       backend w3 = backend w2 ++ pre ++ [speak (_header w2 ++ body) NOW]
       /\ (pre = [] \/ pre = [cancelSpeech]).
Proof.
  pose proof (set_speech_rate (H := sample_host) init
                (py "tts_set_speech_rate 250") (py "250") [] 250
                [py "q {hi}"; py "version"; py "tts_reset";
                 py "tts_set_character_scale 1.5"] (py "l {a}"))
    as Hthm.
  destruct Hthm as (_ & Hs1 & Hh1 & _ & Hh2 & Hsub).
  - reflexivity.
  - reflexivity.
  - repeat constructor; intros Heq; vm_compute in Heq; discriminate.
  - apply (bool_decide_unpack _). vm_compute. exact I.
  - split_and!; [exact Hs1|exact Hh1|exact Hh2|exact Hsub].
Defined.

(** Two texts queued and dispatched in one request. *)
Example session_hello_world :
  let w := serve (H := sample_host) [py "q {hello}"; py "q {world}"; py "d"] init in
  backend w = [speak [Text (py "hello"); EndUtteranceCommand;
                      Text (py "world"); EndUtteranceCommand] NOW]
  /\ _queue w = [].
Proof. split; reflexivity. Qed.

(** A rate, then [tts_reset]: the offset is still in the state and in the
    next request. *)
Example session_reset_keeps_rate :
  let w := serve (H := sample_host)
             [py "tts_set_speech_rate 250"; py "tts_reset"; py "d"] init in
  _state w !! py "rate_offset" = Some (VInt 200)
  /\ backend w = [speak [RateCommand_offset (VInt 200)] NOW].
Proof. split; reflexivity. Qed.

(** [version] twice, then [d]: the version text is spoken by [d] too. *)
Example session_version_then_d :
  backend (serve (H := sample_host) [py "version"; py "d"] init)
  = [speak [Text (py "NVDA 2019.3")] NOW; speak [Text (py "NVDA 2019.3")] NOW].
Proof. reflexivity. Qed.

(** * Further properties of the tokenizer and the handlers *)

(** ** Text *)

Lemma split_cons_ne sep c s :
  c <> sep -> split sep (c :: s) = on_first (cons c) (split sep s).
Proof.
  intros Hne. cbn [split]. destruct (N.eqb_spec c sep) as [|_]; [done|].
  by destruct (split_cons_inv sep s) as (w & ws & ->).
Qed.

Lemma split_app_sep sep a s :
  sep ∉ a -> split sep (a ++ sep :: s) = a :: split sep s.
Proof.
  induction a as [|c a IH]; intros Hn.
  - cbn [app split]. by rewrite N.eqb_refl.
  - apply not_elem_of_cons in Hn as [Hc Ha].
    change ((c :: a) ++ sep :: s) with (c :: (a ++ sep :: s)).
    rewrite split_cons_ne by done. by rewrite IH.
Qed.

Lemma split_no_sep_id sep a : sep ∉ a -> split sep a = [a].
Proof.
  induction a as [|c a IH]; intros Hn; [done|].
  apply not_elem_of_cons in Hn as [Hc Ha].
  rewrite split_cons_ne by done. by rewrite IH.
Qed.

Lemma on_first_length {A} (f : A -> A) l : length (on_first f l) = length l.
Proof. by destruct l. Qed.

Lemma on_first_on_first {A} (f g : A -> A) l :
  on_first f (on_first g l) = on_first (fun x => f (g x)) l.
Proof. by destruct l. Qed.

Lemma on_first_id {A} (f : A -> A) l : (forall x, f x = x) -> on_first f l = l.
Proof. intros Hf. destruct l; [done|]. cbn. by rewrite Hf. Qed.

Lemma on_last_on_last {A} (f g : A -> A) l :
  on_last f (on_last g l) = on_last (fun x => f (g x)) l.
Proof.
  destruct l as [|x l _] using rev_ind; [done|]. by rewrite !on_last_snoc.
Qed.

Lemma on_last_id {A} (f : A -> A) l : (forall x, f x = x) -> on_last f l = l.
Proof.
  intros Hf. destruct l as [|x l _] using rev_ind; [done|].
  by rewrite on_last_snoc, Hf.
Qed.

Lemma split_snoc sep s c :
  c <> sep ->
  split sep (s ++ [c]) = on_last (fun w => w ++ [c]) (split sep s).
Proof.
  intros Hne. induction s as [|x s IH].
  - cbn. by destruct (N.eqb_spec c sep).
  - change ((x :: s) ++ [c]) with (x :: (s ++ [c])).
    destruct (split_cons_inv sep s) as (w & ws & Hs).
    destruct (N.eqb_spec x sep) as [->|Hx].
    + cbn [split]. rewrite N.eqb_refl, IH, Hs.
      by rewrite (on_last_cons _ [] (w :: ws)).
    + rewrite !split_cons_ne, IH, Hs by done.
      destruct ws as [|w' ws]; [done|].
      rewrite (on_last_cons _ w (w' :: ws)) by done. cbn [on_first].
      by rewrite (on_last_cons _ (x :: w) (w' :: ws)).
Qed.

(** Joining the tokens with nothing between them removes the separators. *)
Lemma join_nil_split sep s :
  join [] (split sep s) = List.filter (fun c => negb (c =? sep)%N) s.
Proof.
  induction s as [|x s IH]; [done|].
  destruct (split_cons_inv sep s) as (w & ws & Hs). rewrite Hs in IH.
  cbn [List.filter]. destruct (N.eqb_spec x sep) as [->|Hx]; cbn [negb].
  - cbn [split]. rewrite N.eqb_refl, Hs. by rewrite <- IH.
  - rewrite split_cons_ne, Hs by done. rewrite <- IH.
    by destruct ws.
Qed.

(** There is one token more than there are separators. *)
Lemma split_length_count sep s :
  length (split sep s) = S (length (List.filter (fun c => (c =? sep)%N) s)).
Proof.
  induction s as [|x s IH]; [done|].
  cbn [List.filter]. destruct (N.eqb_spec x sep) as [->|Hx].
  - cbn [split]. rewrite N.eqb_refl. cbn [length]. by rewrite IH.
  - rewrite split_cons_ne, on_first_length by done. done.
Qed.

Lemma lstrip_all s : Forall (fun c => isspace c = true) s -> lstrip s = [].
Proof. induction 1 as [|c s Hc _ IH]; [done|]. cbn. by rewrite Hc. Qed.

Lemma lstrip_nil_all s : lstrip s = [] -> Forall (fun c => isspace c = true) s.
Proof.
  induction s as [|c s IH]; [constructor|]. cbn.
  destruct (isspace c) eqn:Hc; [|done]. intros Hs. constructor; auto.
Qed.

Lemma lstrip_app_space pre s :
  Forall (fun c => isspace c = true) pre -> lstrip (pre ++ s) = lstrip s.
Proof. induction 1 as [|c pre Hc _ IH]; [done|]. cbn. by rewrite Hc. Qed.

Lemma lstrip_app_nonempty a b : lstrip a <> [] -> lstrip (a ++ b) = lstrip a ++ b.
Proof.
  induction a as [|c a IH]; [done|]. cbn.
  destruct (isspace c); [exact IH|done].
Qed.

(** Whitespace around a text does not change what [strip] returns. *)
Lemma strip_pad pre s post :
  Forall (fun c => isspace c = true) pre ->
  Forall (fun c => isspace c = true) post ->
  strip (pre ++ s ++ post) = strip s.
Proof.
  intros Hpre Hpost. unfold strip, rstrip.
  rewrite lstrip_app_space by done.
  destruct (decide (lstrip s = [])) as [Hs|Hs].
  - rewrite Hs, (lstrip_all (s ++ post)); [done|].
    apply Forall_app. split; [by apply lstrip_nil_all|done].
  - rewrite lstrip_app_nonempty, rev_app_distr by done.
    by rewrite lstrip_app_space by (by apply Forall_rev).
Qed.

Lemma strip_fixed s :
  (forall c r, s = c :: r -> isspace c = false) ->
  (forall c r, s = r ++ [c] -> isspace c = false) ->
  strip s = s.
Proof.
  intros Hhd Htl. unfold strip, rstrip.
  assert (Hl : lstrip s = s).
  { destruct s as [|c r]; [done|]. cbn. by rewrite (Hhd c r). }
  rewrite Hl. destruct s as [|c r _] using rev_ind; [done|].
  rewrite rev_unit. cbn [lstrip]. rewrite (Htl c r) by done.
  by rewrite <- rev_unit, rev_involutive.
Qed.

Lemma strip_idemp s : strip (strip s) = strip s.
Proof.
  destruct (strip_spec s) as (_ & _ & _ & _ & _ & Hhd & Htl).
  by apply strip_fixed.
Qed.

Lemma tokenize_strip cmd cmd' : strip cmd = strip cmd' -> tokenize cmd = tokenize cmd'.
Proof. unfold tokenize. by intros ->. Qed.

Lemma strip_lbrace_cons w : strip_lbrace (lbrace :: w) = w.
Proof. reflexivity. Qed.

Lemma strip_rbrace_snoc w : strip_rbrace (w ++ [rbrace]) = w.
Proof. unfold strip_rbrace. rewrite rev_unit. cbn. apply rev_involutive. Qed.

(** ** Lines in Emacspeak's form *)

Lemma isspace_false_not_space name :
  Forall (fun c => isspace c = false) name -> space ∉ name.
Proof.
  intros Hn Hin. rewrite Forall_forall in Hn.
  specialize (Hn _ Hin). by vm_compute in Hn.
Qed.

Lemma strip_braced name text :
  name <> [] -> Forall (fun c => isspace c = false) name ->
  strip (braced name text) = braced name text.
Proof.
  intros Hne Hn. apply strip_fixed.
  - intros c r. unfold braced. destruct name as [|c' name]; [done|].
    intros [= <- _]. by apply Forall_cons in Hn as [? _].
  - intros c r. unfold braced.
    rewrite (app_assoc _ text), (app_assoc name).
    intros [_ <-]%app_inj_tail. reflexivity.
Qed.

Lemma tokens_of_line_braced name text :
  name <> [] -> Forall (fun c => isspace c = false) name ->
  tokens_of_line (braced name text) = name :: split space text.
Proof.
  intros Hne Hn. unfold tokens_of_line, padded.
  rewrite strip_braced by done. unfold braced.
  change ([space; lbrace] ++ text ++ [rbrace])
    with (space :: lbrace :: (text ++ [rbrace])).
  rewrite split_app_sep by by apply isspace_false_not_space.
  rewrite split_cons_ne by (by vm_compute).
  rewrite split_snoc by (by vm_compute).
  destruct (split_cons_inv space text) as (w & ws & Hs).
  match goal with
  | |- context [if ?b then _ else _] => assert (Hlen : b = false)
  end.
  { apply Nat.ltb_ge. cbn [length].
    rewrite on_first_length, on_last_length, Hs. cbn [length]. lia. }
  rewrite Hlen. f_equal.
  rewrite on_first_on_first, on_first_id by apply strip_lbrace_cons.
  rewrite on_last_on_last. apply on_last_id, strip_rbrace_snoc.
Qed.

(** X1. A line made of a command name without whitespace, a space and
    [{text}] is tokenized to the name followed by [text] split at its
    spaces, whatever [text] holds; joining the arguments with spaces gives
    [text] back. *)
Theorem braced_line_tokens (name text : pystr) :
  name <> [] -> Forall (fun c => isspace c = false) name ->
  tokenize (braced name text) = Ok (name :: split space text)
  /\ command_name (braced name text) = name
  /\ join [space] (split space text) = text.
Proof.
  intros Hne Hn.
  assert (Ht : tokenize (braced name text) = Ok (name :: split space text)).
  { rewrite tokenize_tokens_of_line. f_equal. by apply tokens_of_line_braced. }
  split_and!; [done| |apply join_split].
  unfold command_name. by rewrite Ht.
Qed.

Lemma braced_line_tokens_witness :
  tokenize (braced (py "q") (py "hello  world }"))
    = Ok [py "q"; py "hello"; py ""; py "world"; py "}"].
Proof.
  refine (proj1 (braced_line_tokens (py "q") (py "hello  world }") _ _)).
  - discriminate.
  - by repeat constructor.
Defined.

(** ** Whole lines and sessions *)

Section Sessions.

Context `{H : Host}.

Lemma command_name_args cmd :
  exists a rest, tokens_of_line cmd = command_name cmd :: a :: rest.
Proof.
  unfold command_name. rewrite tokenize_tokens_of_line. unfold tokens_of_line.
  destruct (padded_cons2 cmd) as (n & a & r & ->). cbn [on_first].
  destruct r as [|b r]; [cbn; eauto|]. rewrite on_last_cons by done. eauto.
Qed.

Lemma serve_cons cmd lines w :
  serve (cmd :: lines) w = serve lines (exec (parseCommand cmd) w).
Proof. reflexivity. Qed.

Lemma serve_app lines1 lines2 w :
  serve (lines1 ++ lines2) w = serve lines2 (serve lines1 w).
Proof. apply fold_left_app. Qed.

Lemma parse_braced name text w :
  name <> [] -> Forall (fun c => isspace c = false) name ->
  parseCommand (braced name text) w = dispatch (name :: split space text) w.
Proof.
  intros Hne Hn. rewrite parseCommand_dispatch.
  by rewrite tokens_of_line_braced.
Qed.

Lemma parse_d w : parseCommand (py "d") w = d [[]] w.
Proof. rewrite parseCommand_dispatch. apply dispatch_d. Qed.

Lemma dispatch_pause args w :
  dispatch (py "tts_pause" :: args) w = pause args w.
Proof. reflexivity. Qed.

Lemma dispatch_resume args w :
  dispatch (py "tts_resume" :: args) w = resume args w.
Proof. reflexivity. Qed.

(** What a call through the table does to the world, by the name
    called. *)
Lemma call_effect name c args w :
  (name, c) ∈ _cmdMap_items ->
  let w' := exec (call c args) w in
  w' = w
  \/ (name = py "tts_saytext"
      /\ w' = mkWorld (_state w) (_header w) (_queue w)
                (backend w ++ [speak (map Text args) NOW]))
  \/ (name = py "q"
      /\ w' = mkWorld (_state w) (_header w)
                (_queue w ++ [Text (join [space] args); EndUtteranceCommand])
                (backend w))
  \/ (name = py "d"
      /\ w' = mkWorld (_state w) (_header w) []
                (backend w ++ [speak (_header w ++ _queue w) NOW]))
  \/ (name = py "l"
      /\ exists body,
           w' = mkWorld (_state w) (_header w) (_queue w)
                  (backend w ++ [cancelSpeech; speak (_header w ++ body) NOW]))
  \/ (name = py "tts_pause"
      /\ w' = mkWorld (_state w) (_header w) (_queue w)
                (backend w ++ [pauseSpeech true]))
  \/ (name = py "tts_resume"
      /\ w' = mkWorld (_state w) (_header w) (_queue w)
                (backend w ++ [pauseSpeech false]))
  \/ (name = py "s"
      /\ w' = mkWorld (_state w) (_header w) [] (backend w ++ [cancelSpeech]))
  \/ (name = py "t"
      /\ exists f n,
           w' = mkWorld (_state w) (_header w)
                  (_queue w ++ [BeepCommand f n]) (backend w))
  \/ (name = py "tts_set_speech_rate"
      /\ exists z,
           w' = mkWorld (<[py "rate_offset" := VInt z]> (_state w))
                  [RateCommand_offset (VInt z)] (_queue w) (backend w))
  \/ (name = py "tts_set_character_scale"
      /\ exists f,
           w' = mkWorld (<[py "character_scale" := VFloat f]> (_state w))
                  (_header w) (_queue w) (backend w))
  \/ (name = py "version"
      /\ w' = mkWorld (_state w)
                (_header w ++ [Text (py "NVDA " ++ host_version)]) (_queue w)
                (backend w
                 ++ [speak (_header w ++ [Text (py "NVDA " ++ host_version)]) NOW])).
Proof.
  unfold _cmdMap_items. intros Hin. unfold exec.
  repeat (apply elem_of_cons in Hin as [Hin|Hin]);
    try (apply pair_equal_spec in Hin as [-> ->]);
    try (by apply elem_of_nil in Hin); cbn [call].
  - right; left. done.
  - do 2 right; left. by rewrite q_spec.
  - do 3 right; left. by rewrite d_spec.
  - do 4 right; left. rewrite l_spec. split; [done|].
    destruct (_state w !! py "character_scale") as [v|].
    + exists ([RateCommand_multiplier v] ++ getSpellingSpeech (join [] args)).
      cbn [snd]. by rewrite <- !app_assoc.
    + exists (getSpellingSpeech (join [] args)).
      cbn [snd]. by rewrite <- !app_assoc.
  - do 5 right; left. done.
  - do 6 right; left. done.
  - do 7 right; left. by rewrite s_spec.
  - destruct (decide (length args <> 2%nat)) as [Hlen|Hlen].
    { left. by rewrite t_wrong_arity. }
    destruct args as [|a [|b [|c args]]]; try (exfalso; apply Hlen; simpl; lia).
    destruct (py_float a) as [f|e] eqn:Hf.
    + destruct (py_int b) as [n|e] eqn:Hn.
      * do 8 right; left. rewrite (t_tone a b f n w Hf Hn). eauto.
      * left. by rewrite (t_bad_int a b f e w Hf Hn).
    + left. by rewrite (t_bad_float a b e w Hf).
  - destruct args as [|a rest]; [by left|].
    destruct (py_int a) as [r|e] eqn:Hr.
    + do 9 right; left. rewrite (setRate_ok a rest r w Hr). eauto.
    + left. by rewrite (setRate_bad a rest e w Hr).
  - destruct args as [|a rest]; [by left|].
    destruct (py_float a) as [f|e] eqn:Hf.
    + do 10 right; left. rewrite (setCharacterScale_ok a rest f w Hf). eauto.
    + left. by rewrite (setCharacterScale_bad a rest e w Hf).
  - do 11 right. by rewrite version_spec.
  - by left.
Qed.

(** A line either names no handler and is ignored, or is a call of the
    handler it names on at least one argument. *)
Lemma line_call cmd w :
  (_cmdMap !! command_name cmd = None /\ parseCommand cmd w = (Ok tt, w))
  \/ exists c a rest,
       (command_name cmd, c) ∈ _cmdMap_items
       /\ parseCommand cmd w = call c (a :: rest) w.
Proof.
  rewrite parseCommand_dispatch.
  destruct (command_name_args cmd) as (a & rest & ->). rewrite dispatch_cons.
  destruct (_cmdMap !! command_name cmd) as [c|] eqn:E; [right|by left].
  apply cmdMap_Some in E. eauto.
Qed.

(** X2. A line [q {text}] appends [text], exactly as it stands between the
    braces, and one end of utterance to the queue, and changes nothing
    else; this holds for every text, with runs of spaces, spaces at its
    ends and braces of its own. *)
Theorem q_line_queues_text (text : pystr) (w : World) :
  parseCommand (braced (py "q") text) w
  = (Ok tt, mkWorld (_state w) (_header w)
              (_queue w ++ [Text text; EndUtteranceCommand]) (backend w)).
Proof.
  rewrite parse_braced by (discriminate || by repeat constructor).
  by rewrite dispatch_q, q_spec, join_split.
Qed.

(** X3. Lines [q {t1}] ... [q {tn}] call nothing in the speech framework
    and leave state and header alone; the [d] after them submits one
    sequence: the header, what the queue held before, and each text with
    its end of utterance, in the order of the lines.  The queue is empty
    afterwards. *)
Theorem queued_lines_spoken_in_order (texts : list pystr) (w : World) :
  let said := concat (map (fun t => [Text t; EndUtteranceCommand]) texts) in
  let w1 := serve (map (braced (py "q")) texts) w in
  w1 = mkWorld (_state w) (_header w) (_queue w ++ said) (backend w)
  /\ parseCommand (py "d") w1
     = (Ok tt, mkWorld (_state w) (_header w) []
                 (backend w ++ [speak (_header w ++ _queue w ++ said) NOW])).
Proof.
  cbv zeta.
  assert (Hq : serve (map (braced (py "q")) texts) w
               = mkWorld (_state w) (_header w)
                   (_queue w
                    ++ concat (map (fun t => [Text t; EndUtteranceCommand]) texts))
                   (backend w)).
  { revert w. induction texts as [|t texts IH]; intros w.
    - cbn. rewrite app_nil_r. by destruct w.
    - cbn [map]. rewrite serve_cons. unfold exec at 1.
      rewrite parse_braced by (discriminate || by repeat constructor).
      rewrite dispatch_q, q_spec, join_split. cbn [snd].
      rewrite IH. cbn [_state _header _queue backend concat].
      by rewrite <- app_assoc. }
  split; [done|]. by rewrite Hq, parse_d, d_spec.
Qed.

(** X4. A line [l {text}] stops the current speech and then submits the
    header, the character scale when one is set, and the spelling of
    [text] with every space taken out.  Queue, state and header stay as
    they are. *)
Theorem l_line_spells_without_spaces (text : pystr) (w : World) :
  parseCommand (braced (py "l") text) w
  = (Ok tt, mkWorld (_state w) (_header w) (_queue w)
              (backend w ++
               [cancelSpeech;
                speak (_header w
                       ++ match _state w !! py "character_scale" with
                          | Some v => [RateCommand_multiplier v]
                          | None => []
                          end
                       ++ getSpellingSpeech
                            (List.filter (fun c => negb (c =? space)%N) text))
                  NOW])).
Proof.
  rewrite parse_braced by (discriminate || by repeat constructor).
  rewrite dispatch_l, l_spec, join_nil_split.
  destruct (_state w !! py "character_scale"); by rewrite <- !app_assoc.
Qed.

(** X5. A line [tts_saytext {text}] submits the words of [text], one item
    for each piece between spaces, without the header and without
    touching the queue; these pieces joined with spaces are [text]. *)
Theorem saytext_line_speaks_words (text : pystr) (w : World) :
  parseCommand (braced (py "tts_saytext") text) w
  = (Ok tt, mkWorld (_state w) (_header w) (_queue w)
              (backend w ++ [speak (map Text (split space text)) NOW]))
  /\ join [space] (split space text) = text.
Proof.
  split; [|apply join_split].
  by rewrite parse_braced by (discriminate || by repeat constructor).
Qed.

(** X6. After a character scale was set, [l] submits the header, then the
    scale as a rate multiplier, then the spelling, while [d] submits the
    header and the queue without the scale.  Setting the scale leaves the
    header as it is. *)
Theorem character_scale_for_spelling_only (w : World) (a : pystr)
    (rest : list pystr) (f : pyfloat) (text : pystr) :
  py_float a = Ok f ->
  let w1 := exec (dispatch (py "tts_set_character_scale" :: a :: rest)) w in
  _header w1 = _header w
  /\ _state w1 !! py "character_scale" = Some (VFloat f)
  /\ backend (exec (parseCommand (braced (py "l") text)) w1)
     = backend w ++
       [cancelSpeech;
        speak (_header w ++ [RateCommand_multiplier (VFloat f)]
               ++ getSpellingSpeech
                    (List.filter (fun c => negb (c =? space)%N) text)) NOW]
  /\ backend (exec (parseCommand (py "d")) w1)
     = backend w ++ [speak (_header w ++ _queue w) NOW].
Proof.
  intros Hf. cbv zeta. unfold exec.
  rewrite dispatch_setCharacterScale, (setCharacterScale_ok a rest f w Hf).
  cbn [snd]. split_and!.
  - done.
  - cbn [_state]. apply lookup_insert_eq.
  - rewrite parse_braced by (discriminate || by repeat constructor).
    rewrite dispatch_l, l_spec, join_nil_split. cbn [snd backend _state _header].
    rewrite lookup_insert_eq. by rewrite <- !app_assoc.
  - by rewrite parse_d, d_spec.
Qed.

(** X7. Of two rates set one after the other only the second counts: the
    state, the header, the queue and the log are those the second line
    alone would have left. *)
Theorem speech_rate_last_wins (w : World) (a b : pystr)
    (rest rest' : list pystr) (ra rb : Z) :
  py_int a = Ok ra -> py_int b = Ok rb ->
  exec (dispatch (py "tts_set_speech_rate" :: b :: rest'))
    (exec (dispatch (py "tts_set_speech_rate" :: a :: rest)) w)
  = exec (dispatch (py "tts_set_speech_rate" :: b :: rest')) w.
Proof.
  intros Ha Hb. unfold exec.
  rewrite !dispatch_setRate, (setRate_ok a rest ra w Ha), !(setRate_ok b rest' rb _ Hb).
  cbn [snd _state _header _queue backend]. by rewrite insert_insert_eq.
Qed.

(** The cases of [call_effect] for the line [cmd] handled in [w]. *)
Ltac line_cases cmd w :=
  let Hp := fresh "Hp" in
  let Hin := fresh "Hin" in
  let He := fresh "He" in
  let c := fresh "c" in
  let a := fresh "a" in
  let rest := fresh "rest" in
  destruct (line_call cmd w) as [[_ Hp]|(c & a & rest & Hin & Hp)];
  unfold exec; rewrite Hp; cbn [snd];
  [ | pose proof (call_effect _ _ (a :: rest) w Hin) as He;
      unfold exec in He; cbv zeta in He;
      destruct He as
        [He|[[Hn He]|[[Hn He]|[[Hn He]|[[Hn [body He]]|[[Hn He]|[[Hn He]|
        [[Hn He]|[[Hn (f & n & He)]|[[Hn [z He]]|[[Hn [f He]]|[Hn He]]]]]]]]]]]];
      rewrite He; clear He Hp ].

Lemma header_shape_step k cmd w :
  header_shape k w ->
  exists k', header_shape k' (exec (parseCommand cmd) w)
    /\ (k' <= k + (if decide (command_name cmd = py "version") then 1 else 0))%nat.
Proof.
  intros Hk. line_cases cmd w;
    try (exists k; split; [exact Hk|destruct (decide _); lia]).
  - exists 0%nat. split; [|lia].
    unfold header_shape, header_of. cbn [_state _header replicate].
    by rewrite lookup_insert_eq, app_nil_r.
  - exists k. split; [|destruct (decide _); lia].
    unfold header_shape, header_of in *. cbn [_state _header].
    by rewrite lookup_insert_ne by apply rate_offset_ne_character_scale.
  - exists (S k). split; [|rewrite Hn, decide_True by done; lia].
    unfold header_shape in *. cbn [_state _header].
    by rewrite Hk, replicate_S_end, app_assoc.
Qed.

Lemma state_step cmd w :
  _state (exec (parseCommand cmd) w) = _state w
  \/ (exists z, _state (exec (parseCommand cmd) w)
                = <[py "rate_offset" := VInt z]> (_state w))
  \/ (exists f, _state (exec (parseCommand cmd) w)
                = <[py "character_scale" := VFloat f]> (_state w)).
Proof. line_cases cmd w; cbn [_state]; eauto. Qed.

(** X8. Starting from a header that agrees with the state, after any
    lines the header is the rate entry of the state, when there is one,
    followed by copies of the version text and nothing else; there are at
    most as many copies as [version] lines were handled. *)
Theorem header_is_rate_then_versions (lines : list pystr) (w : World) :
  header_rebuilt w ->
  exists k, header_shape k (serve lines w)
    /\ (k <= length (List.filter
                       (fun c => bool_decide (command_name c = py "version"))
                       lines))%nat.
Proof.
  intros Hw.
  assert (Hgen : forall lines k w, header_shape k w ->
            exists k', header_shape k' (serve lines w)
              /\ (k' <= k + length (List.filter
                        (fun c => bool_decide (command_name c = py "version"))
                        lines))%nat).
  { clear. induction lines as [|cmd lines IH]; intros k w Hk.
    - exists k. split; [done|lia].
    - destruct (header_shape_step k cmd w Hk) as (k1 & Hk1 & Hle1).
      destruct (IH k1 _ Hk1) as (k2 & Hk2 & Hle2).
      exists k2. split; [by rewrite serve_cons|].
      cbn [List.filter]. unfold bool_decide at 1.
      destruct (decide_rel eq (command_name cmd) (py "version"));
        destruct (decide (command_name cmd = py "version"));
        try contradiction; cbn [length]; lia. }
  destruct (Hgen lines 0%nat w) as (k & Hk & Hle); [|eauto].
  unfold header_shape, header_rebuilt in *. by rewrite Hw, app_nil_r.
Qed.

(** X9. The state only grows, and only by the two entries the handlers
    write: from a state that holds nothing but an integer under
    [rate_offset] and a float under [character_scale], every sequence of
    lines leads to such a state again; and a key that is in the state
    stays in it, whatever lines follow. *)
Theorem state_only_grows (lines : list pystr) (w : World) :
  state_ok (_state w) ->
  state_ok (_state (serve lines w))
  /\ forall k, is_Some (_state w !! k) -> is_Some (_state (serve lines w) !! k).
Proof.
  revert w. induction lines as [|cmd lines IH]; intros w Hok; [by split|].
  rewrite serve_cons.
  assert (Hstep : state_ok (_state (exec (parseCommand cmd) w))
                  /\ forall k, is_Some (_state w !! k) ->
                       is_Some (_state (exec (parseCommand cmd) w) !! k)).
  { destruct (state_step cmd w) as [->|[[z ->]|[f ->]]]; [done| |].
    - split.
      + intros k v. destruct (decide (py "rate_offset" = k)) as [<-|Hne].
        * rewrite lookup_insert_eq. intros [= <-]. left. eauto.
        * rewrite lookup_insert_ne by done. apply Hok.
      + intros k Hk. destruct (decide (py "rate_offset" = k)) as [<-|Hne].
        * rewrite lookup_insert_eq. eauto.
        * by rewrite lookup_insert_ne.
    - split.
      + intros k v. destruct (decide (py "character_scale" = k)) as [<-|Hne].
        * rewrite lookup_insert_eq. intros [= <-]. right. eauto.
        * rewrite lookup_insert_ne by done. apply Hok.
      + intros k Hk. destruct (decide (py "character_scale" = k)) as [<-|Hne].
        * rewrite lookup_insert_eq. eauto.
        * by rewrite lookup_insert_ne. }
  destruct Hstep as [Hok1 Hkeep1]. destruct (IH _ Hok1) as [Hok2 Hkeep2].
  split; [done|]. intros k Hk. by apply Hkeep2, Hkeep1.
Qed.

(** X10. The queue holds text, ends of utterance and tones only: no line
    puts anything else on it, so a rate entry or a rate multiplier reaches
    the speech framework through the header or [l], never through the
    queue. *)
Theorem queue_holds_text_and_tones (lines : list pystr) (w : World) :
  Forall (fun i => queue_item i = true) (_queue w) ->
  Forall (fun i => queue_item i = true) (_queue (serve lines w)).
Proof.
  revert w. induction lines as [|cmd lines IH]; intros w Hq; [done|].
  rewrite serve_cons. apply IH.
  line_cases cmd w; cbn [_queue]; try done;
    apply Forall_app; split; try done; by repeat constructor.
Qed.

(** X11. The log of calls to the speech framework only grows: a line adds
    at most two calls and takes none back, and every [speak] a line adds
    is made at priority [NOW]. *)
Theorem log_only_grows (lines : list pystr) (w : World) :
  exists added,
    backend (serve lines w) = backend w ++ added
    /\ (length added <= 2 * length lines)%nat
    /\ Forall (fun c => match c with speak _ p => p = NOW | _ => True end) added.
Proof.
  revert w. induction lines as [|cmd lines IH]; intros w.
  { exists []. by rewrite app_nil_r. }
  rewrite serve_cons.
  assert (Hstep : exists added,
            backend (exec (parseCommand cmd) w) = backend w ++ added
            /\ (length added <= 2)%nat
            /\ Forall (fun c => match c with speak _ p => p = NOW | _ => True end)
                 added).
  { line_cases cmd w; cbn [backend];
      try (exists []; by rewrite app_nil_r; split_and!; [|cbn; lia|]);
      eexists; (split_and!; [reflexivity|cbn; lia|by repeat constructor]). }
  destruct Hstep as (a1 & Hb1 & Hl1 & Hn1).
  destruct (IH (exec (parseCommand cmd) w)) as (a2 & Hb2 & Hl2 & Hn2).
  exists (a1 ++ a2). split_and!.
  - by rewrite Hb2, Hb1, app_assoc.
  - rewrite length_app. cbn [length]. lia.
  - by apply Forall_app.
Qed.

(** X12. Which lines can change which field.  Only
    [tts_set_speech_rate] and [tts_set_character_scale] change the state;
    only [tts_set_speech_rate] and [version] change the header; only [q],
    [d], [s] and [t] change the queue; and only [tts_saytext], [d], [l],
    [tts_pause], [tts_resume], [s] and [version] call the speech
    framework. *)
Theorem command_frames (cmd : pystr) (w : World) :
  let w' := exec (parseCommand cmd) w in
  (command_name cmd ∉ [py "tts_set_speech_rate"; py "tts_set_character_scale"]
   -> _state w' = _state w)
  /\ (command_name cmd ∉ [py "tts_set_speech_rate"; py "version"]
      -> _header w' = _header w)
  /\ (command_name cmd ∉ [py "q"; py "d"; py "s"; py "t"]
      -> _queue w' = _queue w)
  /\ (command_name cmd ∉ [py "tts_saytext"; py "d"; py "l"; py "tts_pause";
                          py "tts_resume"; py "s"; py "version"]
      -> backend w' = backend w).
Proof.
  cbv zeta. line_cases cmd w; cbn [_state _header _queue backend];
    split_and!; intros Hnot; try done;
    exfalso; apply Hnot; rewrite Hn;
    repeat first [apply list_elem_of_here|apply list_elem_of_further].
Qed.

Lemma call_raise name c a rest w e w' :
  (name, c) ∈ _cmdMap_items -> call c (a :: rest) w = (Raise e, w') ->
  w' = w
  /\ ((name = py "tts_reset" /\ e = TypeError)
      \/ (name ∈ [py "t"; py "tts_set_speech_rate"; py "tts_set_character_scale"]
          /\ exists x, x ∈ a :: rest
               /\ (py_int x = Raise e \/ py_float x = Raise e))).
Proof.
  unfold _cmdMap_items. intros Hin.
  repeat (apply elem_of_cons in Hin as [Hin|Hin]);
    try (apply pair_equal_spec in Hin as [-> ->]);
    try (by apply elem_of_nil in Hin); cbn [call]; intros Hc.
  - discriminate Hc.
  - by rewrite q_spec in Hc.
  - by rewrite d_spec in Hc.
  - by rewrite l_spec in Hc.
  - discriminate Hc.
  - discriminate Hc.
  - by rewrite s_spec in Hc.
  - destruct (decide (length (a :: rest) <> 2%nat)) as [Hlen|Hlen].
    { by rewrite t_wrong_arity in Hc. }
    destruct rest as [|b [|b' rest]]; try (exfalso; apply Hlen; simpl; lia).
    destruct (py_float a) as [f|e'] eqn:Hf.
    + destruct (py_int b) as [n|e'] eqn:Hn.
      * by rewrite (t_tone a b f n w Hf Hn) in Hc.
      * rewrite (t_bad_int a b f e' w Hf Hn) in Hc. injection Hc as <- <-.
        split; [done|right]. split; [apply list_elem_of_here|].
        exists b. split; [|by left].
        apply list_elem_of_further, list_elem_of_here.
    + rewrite (t_bad_float a b e' w Hf) in Hc. injection Hc as <- <-.
      split; [done|right]. split; [apply list_elem_of_here|].
      exists a. split; [apply list_elem_of_here|by right].
  - destruct (py_int a) as [r|e'] eqn:Hr.
    + by rewrite (setRate_ok a rest r w Hr) in Hc.
    + rewrite (setRate_bad a rest e' w Hr) in Hc. injection Hc as <- <-.
      split; [done|right].
      split; [apply list_elem_of_further, list_elem_of_here|].
      exists a. split; [apply list_elem_of_here|by left].
  - destruct (py_float a) as [f|e'] eqn:Hf.
    + by rewrite (setCharacterScale_ok a rest f w Hf) in Hc.
    + rewrite (setCharacterScale_bad a rest e' w Hf) in Hc. injection Hc as <- <-.
      split; [done|right].
      split; [do 2 apply list_elem_of_further; apply list_elem_of_here|].
      exists a. split; [apply list_elem_of_here|by right].
  - by rewrite version_spec in Hc.
  - injection Hc as <- <-. split; [done|by left].
Qed.

Lemma line_raise cmd w e w' :
  parseCommand cmd w = (Raise e, w') ->
  w' = w
  /\ ((command_name cmd = py "tts_reset" /\ e = TypeError)
      \/ (command_name cmd
            ∈ [py "t"; py "tts_set_speech_rate"; py "tts_set_character_scale"]
          /\ exists x, py_int x = Raise e \/ py_float x = Raise e)).
Proof.
  destruct (line_call cmd w) as [[_ Hp]|(c & a & rest & Hin & Hp)];
    rewrite Hp; [discriminate|]. intros Hc.
  destruct (call_raise _ _ _ _ _ _ _ Hin Hc) as [-> [Hr|[Hn (x & _ & Hx)]]]; eauto.
Qed.

Lemma line_ok cmd w :
  command_name cmd ∉ [py "t"; py "tts_set_speech_rate";
                      py "tts_set_character_scale"; py "tts_reset"] ->
  parseCommand cmd w = (Ok tt, exec (parseCommand cmd) w).
Proof.
  intros Hn. unfold exec.
  destruct (parseCommand cmd w) as [[[]|e] w'] eqn:Hc; [done|].
  exfalso. apply Hn.
  destruct (line_raise _ _ _ _ Hc) as [_ [[-> _]|[Hin _]]].
  - do 3 apply list_elem_of_further. apply list_elem_of_here.
  - repeat (apply elem_of_cons in Hin as [->|Hin]);
      [| | |by apply elem_of_nil in Hin];
      repeat first [apply list_elem_of_here|apply list_elem_of_further].
Qed.

Lemma tokens_of_line_strip cmd cmd' :
  strip cmd = strip cmd' -> tokens_of_line cmd = tokens_of_line cmd'.
Proof. unfold tokens_of_line, padded. by intros ->. Qed.

Lemma parse_strip cmd w : parseCommand (strip cmd) w = parseCommand cmd w.
Proof.
  rewrite !parseCommand_dispatch.
  by rewrite (tokens_of_line_strip (strip cmd) cmd) by apply strip_idemp.
Qed.

Lemma command_name_strip cmd : command_name (strip cmd) = command_name cmd.
Proof.
  unfold command_name.
  by rewrite (tokenize_strip (strip cmd) cmd) by apply strip_idemp.
Qed.


(** X14. A line of whitespace only, the empty line among them, is
    ignored: it returns and changes nothing. *)
Theorem blank_line_ignored (cmd : pystr) (w : World) :
  Forall (fun c => isspace c = true) cmd -> parseCommand cmd w = (Ok tt, w).
Proof.
  intros Hs. rewrite parseCommand_dispatch.
  rewrite (tokens_of_line_strip cmd []).
  - change (tokens_of_line []) with [@nil N; []].
    rewrite dispatch_cons, cmdMap_None; [done|].
    rewrite command_names_eq. apply (bool_decide_unpack _). by vm_compute.
  - pose proof (strip_pad cmd [] [] Hs (Forall_nil_2 _)) as Hp.
    by rewrite !app_nil_r in Hp.
Qed.

(** X15. Whitespace before and after a line does not matter: the line
    terminator, a carriage return, indentation.  The line is handled as
    if they were not there, so the [strip] the connection handler applies
    before [parseCommand] changes nothing. *)
Theorem surrounding_whitespace_ignored (pre cmd post : pystr) (w : World) :
  Forall (fun c => isspace c = true) pre ->
  Forall (fun c => isspace c = true) post ->
  parseCommand (pre ++ cmd ++ post) w = parseCommand cmd w
  /\ parseCommand (strip cmd) w = parseCommand cmd w.
Proof.
  intros Hpre Hpost. split; [|apply parse_strip].
  rewrite !parseCommand_dispatch.
  by rewrite (tokens_of_line_strip (pre ++ cmd ++ post) cmd) by by apply strip_pad.
Qed.

Lemma handle_cons line rest w :
  handle (line :: rest) w =
  match parseCommand line w with
  | (Ok _, w1) => handle rest w1
  | (Raise e, w1) => (Raise e, w1)
  end.
Proof.
  cbn [handle]. unfold mbind, M_bind. rewrite parse_strip.
  by destruct (parseCommand line w) as [[[]|e] w1].
Qed.

Lemma handle_app_ok before after w :
  outcome (handle before) w = Ok tt ->
  handle (before ++ after) w = handle after (serve before w).
Proof.
  revert w. induction before as [|line before IH]; intros w; [done|].
  change ((line :: before) ++ after) with (line :: (before ++ after)).
  rewrite serve_cons. unfold outcome, exec. rewrite !handle_cons.
  destruct (parseCommand line w) as [[[]|e] w1]; [|discriminate].
  apply IH.
Qed.

(** X16. One connection.  As long as its lines return, the handler works
    through them in order, as the server would on its own.  At the first
    line that raises the handler stops: what the lines before it did
    stays, the failing line changes nothing, and the lines after it are
    not handled. *)
Theorem handle_stops_at_first_failure (before after : list pystr)
    (bad : pystr) (w : World) (e : exn) :
  outcome (handle before) w = Ok tt ->
  outcome (parseCommand bad) (serve before w) = Raise e ->
  handle before w = (Ok tt, serve before w)
  /\ handle (before ++ bad :: after) w = (Raise e, serve before w).
Proof.
  intros Hok Hbad. split.
  - rewrite <- (app_nil_r before) at 1. by rewrite handle_app_ok.
  - rewrite handle_app_ok, handle_cons by done. unfold outcome in Hbad.
    destruct (parseCommand bad (serve before w)) as [[[]|e'] w1] eqn:Hc;
      [discriminate|].
    cbn [fst] in Hbad. injection Hbad as ->.
    by destruct (line_raise _ _ _ _ Hc) as [-> _].
Qed.

(** X17. A connection with no [t], [tts_set_speech_rate],
    [tts_set_character_scale] or [tts_reset] line never raises: all of
    its lines are handled, whatever their arguments are. *)
Theorem handle_never_fails (rfile : list pystr) (w : World) :
  Forall (fun line =>
            command_name line ∉ [py "t"; py "tts_set_speech_rate";
                                 py "tts_set_character_scale"; py "tts_reset"])
         rfile ->
  handle rfile w = (Ok tt, serve rfile w).
Proof.
  intros Hn. revert w. induction Hn as [|line rfile Hline _ IH]; intros w; [done|].
  rewrite handle_cons, serve_cons, (line_ok line w Hline). apply IH.
Qed.

(** X18. Tokenizing never raises, and the number of tokens is known from
    the trimmed line alone: one more than it has spaces, and two for a
    line without any. *)
Theorem token_count (cmd : pystr) :
  exists tk,
    tokenize cmd = Ok tk
    /\ length tk
       = Nat.max 2 (S (length (List.filter (fun c => (c =? space)%N) (strip cmd)))).
Proof.
  exists (tokens_of_line cmd). split; [apply tokenize_tokens_of_line|].
  assert (Hlen : length (tokens_of_line cmd) = length (padded cmd)).
  { unfold tokens_of_line. destruct (padded cmd) as [|name args]; [done|].
    cbn [length]. by rewrite on_last_length, on_first_length. }
  rewrite Hlen. unfold padded.
  pose proof (split_length_count space (strip cmd)) as Hc.
  destruct (Nat.ltb_spec (length (split space (strip cmd))) 2) as [Hlt|Hge].
  - rewrite length_app. cbn [length]. lia.
  - lia.
Qed.

(** X19. [tts_pause] and [tts_resume] only switch the speech framework's
    pause on and off, whatever their arguments are: the queue, the state
    and the header are as before, so what was queued is still there for
    the next [d]. *)
Theorem pause_resume_keep_queue (p r : pystr) (w : World) :
  command_name p = py "tts_pause" -> command_name r = py "tts_resume" ->
  serve [p; r] w
  = mkWorld (_state w) (_header w) (_queue w)
      (backend w ++ [pauseSpeech true; pauseSpeech false]).
Proof.
  intros Hp Hr. rewrite !serve_cons. unfold exec.
  rewrite !parseCommand_dispatch.
  destruct (command_name_tokens p) as (pargs & ->).
  destruct (command_name_tokens r) as (rargs & ->).
  rewrite Hp, Hr, dispatch_pause, dispatch_resume.
  unfold pause, resume, modify, log, serve.
  cbn [snd fold_left _state _header _queue backend].
  by rewrite <- app_assoc.
Qed.

End Sessions.

(** ** The further properties on the sample host *)

Lemma character_scale_for_spelling_only_witness :
  backend (exec (parseCommand (H := sample_host) (braced (py "l") (py "a b")))
             (exec (dispatch (H := sample_host)
                      [py "tts_set_character_scale"; py "1.5"]) init))
  = [cancelSpeech;
     speak (H := sample_host)
       [RateCommand_multiplier (VFloat (15, 1%nat)); Text (py "a"); Text (py "b")]
       NOW].
Proof.
  pose proof (character_scale_for_spelling_only (H := sample_host) init
                (py "1.5") [] (15, 1%nat) (py "a b")) as Hthm.
  destruct Hthm as (_ & _ & Hl & _).
  - reflexivity.
  - exact Hl.
Defined.

Lemma speech_rate_last_wins_witness :
  exec (dispatch (H := sample_host) [py "tts_set_speech_rate"; py "300"])
    (exec (dispatch (H := sample_host) [py "tts_set_speech_rate"; py "250"]) init)
  = exec (dispatch (H := sample_host) [py "tts_set_speech_rate"; py "300"]) init.
Proof.
  apply (speech_rate_last_wins (H := sample_host) init (py "250") (py "300")
           [] [] 250 300); reflexivity.
Defined.

Lemma header_is_rate_then_versions_witness :
  exists k,
    header_shape (H := sample_host) k
      (serve [py "version"; py "tts_set_speech_rate 250"; py "version"; py "d"] init)
    /\ (k <= 2)%nat.
Proof.
  apply (header_is_rate_then_versions (H := sample_host)
           [py "version"; py "tts_set_speech_rate 250"; py "version"; py "d"] init).
  reflexivity.
Defined.

Lemma state_only_grows_witness :
  state_ok (_state (serve (H := sample_host)
                      [py "tts_set_speech_rate 250"; py "tts_reset";
                       py "tts_set_character_scale 1.5"] init)).
Proof.
  apply (state_only_grows (H := sample_host)
           [py "tts_set_speech_rate 250"; py "tts_reset";
            py "tts_set_character_scale 1.5"] init).
  intros k v Hl. unfold init in Hl. cbn [_state] in Hl.
  by rewrite lookup_empty in Hl.
Defined.

Lemma queue_holds_text_and_tones_witness :
  Forall (fun i => queue_item i = true)
    (_queue (serve (H := sample_host)
               [py "q {hi}"; py "t 0.5 440"; py "tts_set_speech_rate 250"] init)).
Proof.
  apply (queue_holds_text_and_tones (H := sample_host)
           [py "q {hi}"; py "t 0.5 440"; py "tts_set_speech_rate 250"] init).
  constructor.
Defined.

Lemma command_frames_witness :
  let w' := exec (parseCommand (H := sample_host) (py "q {hi}")) init in
  _state w' = _state (H := sample_host) init
  /\ _header w' = _header (H := sample_host) init
  /\ backend w' = backend (H := sample_host) init.
Proof.
  destruct (command_frames (H := sample_host) (py "q {hi}") init)
    as (Hs & Hh & _ & Hb).
  split_and!; [apply Hs|apply Hh|apply Hb];
    apply (bool_decide_unpack _); vm_compute; exact I.
Defined.


Lemma blank_line_ignored_witness :
  parseCommand (H := sample_host) (py "   ") init = (Ok tt, init).
Proof.
  apply (blank_line_ignored (H := sample_host) (py "   ") init).
  by repeat constructor.
Defined.

Lemma surrounding_whitespace_ignored_witness :
  parseCommand (H := sample_host) (py "  " ++ py "q {hi}" ++ [13; 10]%N) init
  = parseCommand (H := sample_host) (py "q {hi}") init.
Proof.
  refine (proj1 (surrounding_whitespace_ignored (H := sample_host)
                   (py "  ") (py "q {hi}") [13; 10]%N init _ _));
    by repeat constructor.
Defined.

Lemma handle_stops_at_first_failure_witness :
  handle (H := sample_host) [py "q {a}"; py "tts_reset"; py "d"] init
  = (Raise TypeError, serve [py "q {a}"] init).
Proof.
  refine (proj2 (handle_stops_at_first_failure (H := sample_host)
                   [py "q {a}"] [py "d"] (py "tts_reset") init TypeError _ _));
    reflexivity.
Defined.

Lemma handle_never_fails_witness :
  handle (H := sample_host) [py "q {a}"; py "d"] init
  = (Ok tt, serve [py "q {a}"; py "d"] init).
Proof.
  apply (handle_never_fails (H := sample_host) [py "q {a}"; py "d"] init).
  repeat (apply Forall_cons; split); [| |apply Forall_nil_2];
    apply (bool_decide_unpack _); vm_compute; exact I.
Defined.

Lemma pause_resume_keep_queue_witness :
  serve (H := sample_host) [py "tts_pause"; py "tts_resume"] init
  = mkWorld (H := sample_host) ∅ [] [] [pauseSpeech true; pauseSpeech false].
Proof.
  apply (pause_resume_keep_queue (H := sample_host)
           (py "tts_pause") (py "tts_resume") init); reflexivity.
Defined.
